(** * Forum.py: a DynamoDB-backed forum table, verified over a shallow embedding

    The Python class [Forum] of [src/Forum.py] is a facade over a Boto3
    DynamoDB resource.  Every method is one [try]/[except ClientError]
    block around calls into the service client.  The embedding keeps that
    shape:

    - Python exceptions are values of [exn]; a method is a function from
      the environment (the instance attribute [self.table], the logger's
      records, the remote service, the local files) to an [outcome] and
      the new environment;
    - the remote service is a transition function on requests.  The
      methods are written once, over any such function; the statements on
      error handling hold for every service, the statements on stored data
      are proved against [DynamoDB.serve], an in-memory table store with
      the request semantics the service documents. *)

From stdpp Require Import gmap strings list fin_maps.
From Stdlib Require Import ZArith Ascii DecimalString DecimalPos DecimalZ.

Open Scope string_scope.
Open Scope list_scope.

(** ** Python values that travel through the facade *)

(** Attribute values of an item: strings (DynamoDB type S) and numbers
    (type N), the latter as Python holds them: an [int] or a [Decimal]
    [coef * 10 ^ exp]. *)
Inductive value :=
| VStr (s : string)
| VInt (z : Z)
| VDecimal (coef exp : Z).

#[global] Instance value_eq_dec : EqDecision value.
Proof. solve_decision. Defined.

(** An item, a key and a continuation token are Python dicts from
    attribute names to values. *)
Abbreviation item := (gmap string value).

(** The exceptions the module can see. *)
Inductive exn :=
| ClientError (Code Message : string)
| KeyError (key : string)
| AttributeError (attr : string)
| FileNotFoundError (filename : string)
| JSONDecodeError.

Inductive outcome (A : Type) :=
| Returns (a : A)
| Raises (e : exn)
| Unfinished.
Arguments Returns {A} a.
Arguments Raises {A} e.
Arguments Unfinished {A}.

(** A Boto3 [Table] resource: a handle that carries the table's name. *)
Record Table := { name : string }.

(** ** Requests and replies of the service client *)

Inductive request :=
| DescribeTable (TableName : string)
| CreateTable (TableName : string)
    (KeySchema AttributeDefinitions : list (string * string))
    (ReadCapacityUnits WriteCapacityUnits : nat)
| WaitUntilExists (TableName : string)
| BatchWriteItem (TableName : string) (Items : list item)
| GetItem (TableName : string) (Key : item)
| Scan (TableName : string) (kwargs : gmap string item)
| PutItem (TableName : string) (Item : item)
| UpdateItem (TableName : string) (Key : item) (UpdateExpression : string)
    (ExpressionAttributeValues : item)
    (ExpressionAttributeNames : gmap string string)
    (ReturnValues : string)
| DeleteItem (TableName : string) (Key : item)
| DeleteTable (TableName : string).

(** A response is a Python dict; these are the entries the module reads,
    each present or not. *)
Record response := {
  Item : option item;
  Items : option (list item);
  LastEvaluatedKey : option item;
  Attributes : option item
}.

Definition empty_response : response :=
  {| Item := None; Items := None; LastEvaluatedKey := None; Attributes := None |}.

(** The client returns a response or raises [ClientError] with the code
    and message of [err.response['Error']]. *)
Inductive reply :=
| Ok (r : response)
| Fault (Code Message : string).

(** A record passed to [logger.error]: the format string and its
    arguments. *)
Record log_record := {
  levelname : string;
  msg : string;
  args : list string
}.

(** ** Decoding JSON: [json.load(fp, parse_float=Decimal)]

    What the decoder of Python's [json] module returns for a document.  A
    number written without fraction and exponent goes through [int], which
    has no bound; a number with a fraction or an exponent goes through the
    [parse_float] hook, here [Decimal], which keeps every digit: the
    coefficient is the digits of the literal and the exponent counts the
    digits after the point.  There is no float in a decoded document but
    the constants [NaN], [Infinity] and [-Infinity], which the decoder
    hands to [float] whatever the hook is.  Escapes of the form [\uXXXX]
    in strings are outside the model: it rejects them. *)
#[local] Set Warnings "-register-all".

Inductive json :=
| JNone
| JBool (b : bool)
| JInt (z : Z)
| JDecimal (coef exp : Z)
| JFloatConstant (literal : string)
| JStr (s : string)
| JList (l : list json)
| JDict (d : list (string * json)).

Module Json.

(** The double quote, written by its code. *)
Definition dquote : ascii := "034"%char.

Definition is_ws (c : ascii) : bool :=
  match c with
  | " "%char | "009"%char | "010"%char | "013"%char => true
  | _ => false
  end.

Fixpoint skip_ws (s : string) : string :=
  match s with
  | String c r => if is_ws c then skip_ws r else s
  | EmptyString => s
  end.

Definition digit_of (c : ascii) : option (Decimal.uint -> Decimal.uint) :=
  match c with
  | "0"%char => Some Decimal.D0
  | "1"%char => Some Decimal.D1
  | "2"%char => Some Decimal.D2
  | "3"%char => Some Decimal.D3
  | "4"%char => Some Decimal.D4
  | "5"%char => Some Decimal.D5
  | "6"%char => Some Decimal.D6
  | "7"%char => Some Decimal.D7
  | "8"%char => Some Decimal.D8
  | "9"%char => Some Decimal.D9
  | _ => None
  end.

(** The longest run of digits at the head of a string, and what follows. *)
Fixpoint scan_uint (s : string) : Decimal.uint * string :=
  match s with
  | String c r =>
      match digit_of c with
      | Some D => let '(d, r') := scan_uint r in (D d, r')
      | None => (Decimal.Nil, s)
      end
  | EmptyString => (Decimal.Nil, s)
  end.

(** The integer part of a number: [0], or digits that start with none. *)
Definition scan_integer (s : string) : option (Decimal.uint * string) :=
  match scan_uint s with
  | (Decimal.Nil, _) => None
  | (Decimal.D0 Decimal.Nil, r) => Some (Decimal.D0 Decimal.Nil, r)
  | (Decimal.D0 _, _) => None
  | (d, r) => Some (d, r)
  end.

(** A fraction [.digits], when there is one. *)
Definition scan_fraction (s : string) : option Decimal.uint * string :=
  match s with
  | String "."%char r =>
      match scan_uint r with
      | (Decimal.Nil, _) => (None, s)
      | (d, r') => (Some d, r')
      end
  | _ => (None, s)
  end.

(** An exponent [e], [e+] or [e-] and digits, when there is one. *)
Definition scan_exponent (s : string) : option Z * string :=
  match s with
  | String c r =>
      if orb (Ascii.eqb c "e") (Ascii.eqb c "E") then
        let '(sign, r1) :=
          match r with
          | String "-"%char r' => ((-1)%Z, r')
          | String "+"%char r' => (1%Z, r')
          | _ => (1%Z, r)
          end in
        match scan_uint r1 with
        | (Decimal.Nil, _) => (None, s)
        | (d, r2) => (Some (sign * Z.of_uint d)%Z, r2)
        end
      else (None, s)
  | EmptyString => (None, s)
  end.

(** [int(literal)] *)
Definition parse_int (negative : bool) (digits : Decimal.uint) : json :=
  JInt (if negative then - Z.of_uint digits else Z.of_uint digits)%Z.

(** [Decimal(literal)], the [parse_float] hook: exact. *)
Definition parse_float (negative : bool) (digits : Decimal.uint)
    (fraction : option Decimal.uint) (exponent : option Z) : json :=
  let frac := default Decimal.Nil fraction in
  let coef := Z.of_uint (Decimal.app digits frac) in
  JDecimal (if negative then - coef else coef)%Z
           (default 0 exponent - Z.of_nat (Decimal.nb_digits frac))%Z.

Definition scan_number (s : string) : option (json * string) :=
  let '(negative, s1) :=
    match s with
    | String "-"%char r => (true, r)
    | _ => (false, s)
    end in
  '(digits, s2) ← scan_integer s1;
  let '(fraction, s3) := scan_fraction s2 in
  let '(exponent, s4) := scan_exponent s3 in
  match fraction, exponent with
  | None, None => Some (parse_int negative digits, s4)
  | _, _ => Some (parse_float negative digits fraction exponent, s4)
  end.

(** The character an escape stands for. *)
Definition unescape (c : ascii) : option ascii :=
  match c with
  | "034"%char => Some "034"%char
  | "\"%char => Some "\"%char
  | "/"%char => Some "/"%char
  | "b"%char => Some "008"%char
  | "f"%char => Some "012"%char
  | "n"%char => Some "010"%char
  | "r"%char => Some "013"%char
  | "t"%char => Some "009"%char
  | _ => None
  end.

Definition is_control (c : ascii) : bool := (nat_of_ascii c <? 32)%nat.

(** A string, from behind its opening quote to its closing quote. *)
Fixpoint scan_string (s : string) : option (string * string) :=
  match s with
  | EmptyString => None
  | String c r =>
      if Ascii.eqb c dquote then Some (EmptyString, r)
      else if Ascii.eqb c "\" then
        match r with
        | String e r' =>
            c' ← unescape e;
            '(str, rest) ← scan_string r';
            Some (String c' str, rest)
        | EmptyString => None
        end
      else if is_control c then None
      else
        '(str, rest) ← scan_string r;
        Some (String c str, rest)
  end.

(** A later value of a key takes the place of an earlier one. *)
Fixpoint dict_set (d : list (string * json)) (k : string) (v : json)
    : list (string * json) :=
  match d with
  | [] => [(k, v)]
  | (k', v') :: d' =>
      if String.eqb k' k then (k', v) :: d' else (k', v') :: dict_set d' k v
  end.

Definition strip_prefix (p s : string) : option string :=
  if String.prefix p s
  then Some (String.substring (String.length p) (String.length s - String.length p) s)
  else None.

Fixpoint scan_value (fuel : nat) (s : string) : option (json * string) :=
  match fuel with
  | O => None
  | S fuel =>
      match s with
      | String c r =>
          if Ascii.eqb c dquote then
            '(str, rest) ← scan_string r; Some (JStr str, rest)
          else if Ascii.eqb c "{" then
            match skip_ws r with
            | String "}"%char rest => Some (JDict [], rest)
            | r1 => scan_members fuel [] r1
            end
          else if Ascii.eqb c "[" then
            match skip_ws r with
            | String "]"%char rest => Some (JList [], rest)
            | r1 => scan_elements fuel [] r1
            end
          else
            match strip_prefix "null" s, strip_prefix "true" s,
                  strip_prefix "false" s, strip_prefix "NaN" s,
                  strip_prefix "Infinity" s, strip_prefix "-Infinity" s with
            | Some rest, _, _, _, _, _ => Some (JNone, rest)
            | _, Some rest, _, _, _, _ => Some (JBool true, rest)
            | _, _, Some rest, _, _, _ => Some (JBool false, rest)
            | _, _, _, Some rest, _, _ => Some (JFloatConstant "NaN", rest)
            | _, _, _, _, Some rest, _ => Some (JFloatConstant "Infinity", rest)
            | _, _, _, _, _, Some rest => Some (JFloatConstant "-Infinity", rest)
            | _, _, _, _, _, _ => scan_number s
            end
      | EmptyString => None
      end
  end
with scan_elements (fuel : nat) (acc : list json) (s : string)
    : option (json * string) :=
  match fuel with
  | O => None
  | S fuel =>
      '(v, r) ← scan_value fuel s;
      match skip_ws r with
      | String ","%char r' => scan_elements fuel (acc ++ [v]) (skip_ws r')
      | String "]"%char r' => Some (JList (acc ++ [v]), r')
      | _ => None
      end
  end
with scan_members (fuel : nat) (acc : list (string * json)) (s : string)
    : option (json * string) :=
  match fuel with
  | O => None
  | S fuel =>
      match s with
      | String c r =>
          if Ascii.eqb c dquote then
            '(k, r1) ← scan_string r;
            match skip_ws r1 with
            | String ":"%char r2 =>
                '(v, r3) ← scan_value fuel (skip_ws r2);
                match skip_ws r3 with
                | String ","%char r4 =>
                    scan_members fuel (dict_set acc k v) (skip_ws r4)
                | String "}"%char r4 => Some (JDict (dict_set acc k v), r4)
                | _ => None
                end
            | _ => None
            end
          else None
      | EmptyString => None
      end
  end.

(** [json.loads]: one value, with blanks around it and nothing else.  The
    decoder takes at most one turn per character. *)
Definition loads (s : string) : option json :=
  match scan_value (S (String.length s)) (skip_ws s) with
  | Some (v, rest) =>
      match skip_ws rest with
      | EmptyString => Some v
      | _ => None
      end
  | None => None
  end.

(** *** Writing documents down

    Double quotes cannot stand in a string of this file; [dq] turns the
    single quotes of a text into double quotes. *)
Fixpoint dq (s : string) : string :=
  match s with
  | String c r => String (if Ascii.eqb c "'" then dquote else c) (dq r)
  | EmptyString => EmptyString
  end.

End Json.

(** ** The environment and the monad of method bodies *)

Section Facade.

Context {W : Type}.
Variable serve : request -> W -> reply * W.

Record env := {
  table : option Table;              (* self.table *)
  remote : W;                        (* behind self.dyn_resource *)
  wire : list (request * reply);     (* requests sent, with their replies *)
  records : list log_record;         (* what the logger received *)
  stdout : list string;              (* what print wrote *)
  files : gmap string string         (* local files, by path *)
}.

Definition M (A : Type) : Type := env -> outcome A * env.

Definition ret {A} (a : A) : M A := fun s => (Returns a, s).

Definition raise {A} (e : exn) : M A := fun s => (Raises e, s).

Definition bind {A B} (k : A -> M B) (m : M A) : M B :=
  fun s =>
    match m s with
    | (Returns a, s') => k a s'
    | (Raises e, s') => (Raises e, s')
    | (Unfinished, s') => (Unfinished, s')
    end.

(** [try: body / except ClientError as err: handler / else: orelse].
    Only [ClientError] is caught; what [handler] or [orelse] raise is not. *)
Definition try_except_else {A B} (body : M A)
    (handler : string -> string -> M B) (orelse : A -> M B) : M B :=
  fun s =>
    match body s with
    | (Returns a, s') => orelse a s'
    | (Raises (ClientError Code Message), s') => handler Code Message s'
    | (Raises e, s') => (Raises e, s')
    | (Unfinished, s') => (Unfinished, s')
    end.

(** The environment after one exchange with the service, after a change of
    [self.table], and after one more log record. *)
Definition exchange (s : env) (r : request) (rep : reply) (w' : W) : env :=
  {| table := table s; remote := w'; wire := wire s ++ [(r, rep)];
     records := records s; stdout := stdout s; files := files s |}.

Definition with_table (s : env) (t : option Table) : env :=
  {| table := t; remote := remote s; wire := wire s;
     records := records s; stdout := stdout s; files := files s |}.

Definition with_record (s : env) (rec : log_record) : env :=
  {| table := table s; remote := remote s; wire := wire s;
     records := records s ++ [rec]; stdout := stdout s; files := files s |}.

(** One request to the service; the exchange is recorded on the wire. *)
Definition call (r : request) : M response :=
  fun s =>
    let '(rep, w') := serve r (remote s) in
    match rep with
    | Ok resp => (Returns resp, exchange s r rep w')
    | Fault Code Message => (Raises (ClientError Code Message), exchange s r rep w')
    end.

(** [self.table.<attr>]: attribute access fails on [None]. *)
Definition self_table (attr : string) : M Table :=
  fun s =>
    match table s with
    | Some t => (Returns t, s)
    | None => (Raises (AttributeError attr), s)
    end.

Definition set_table (t : option Table) : M unit :=
  fun s => (Returns tt, with_table s t).

Definition error_record (fmt : string) (a : list string) : log_record :=
  {| levelname := "ERROR"; msg := fmt; args := a |}.

Definition logger_error (fmt : string) (a : list string) : M unit :=
  fun s => (Returns tt, with_record s (error_record fmt a)).

Definition print (line : string) : M unit :=
  fun s =>
    (Returns tt,
     {| table := table s; remote := remote s; wire := wire s;
        records := records s; stdout := stdout s ++ [line]; files := files s |}).

Definition open (path : string) : M string :=
  fun s =>
    match files s !! path with
    | Some text => (Returns text, s)
    | None => (Raises (FileNotFoundError path), s)
    end.

#[global] Instance M_ret : MRet M := @ret.
#[global] Instance M_bind : MBind M := @bind.

Definition unfinished {A} : M A := fun s => (Unfinished, s).

(** Truth value of [start_key] in [if start_key:]: [None] and the empty
    dict are false. *)
Definition truthy (start_key : option item) : bool :=
  match start_key with
  | Some k => bool_decide (k ≠ ∅)
  | None => false
  end.

(** [response['Item']] and [response['Attributes']]: subscripting a dict
    raises [KeyError] on a missing key. *)
Definition subscript {A} (field : option A) (key : string) : M A :=
  match field with
  | Some v => ret v
  | None => raise (KeyError key)
  end.

(** ** The methods of class [Forum] *)

Definition exists_ (table_name : string) : M bool :=
  try_except_else
    (let table := {| name := table_name |} in
     _ ← call (DescribeTable (name table));
     mret (table, true))
    (fun Code Message =>
       if String.eqb Code "ResourceNotFoundException" then mret false
       else
         logger_error "Couldn't check for existence of %s. Here's why: %s: %s"
           [table_name; Code; Message];;
         raise (ClientError Code Message))
    (fun '(table, exists0) =>
       set_table (Some table);;
       mret exists0).

Definition create_table (table_name : string) : M Table :=
  try_except_else
    (_ ← call (CreateTable table_name
                 [("Name", "HASH")] [("Name", "S")] 10 5);
     set_table (Some {| name := table_name |});;
     t ← self_table "wait_until_exists";
     _ ← call (WaitUntilExists (name t));
     mret tt)
    (fun Code Message =>
       logger_error "Couldn't create table %s. Here's why: %s: %s"
         [table_name; Code; Message];;
       raise (ClientError Code Message))
    (fun _ => self_table "table").

Definition write_batch (forums : list item) : M unit :=
  try_except_else
    (t ← self_table "batch_writer";
     _ ← call (BatchWriteItem (name t) forums);
     mret tt)
    (fun Code Message =>
       t ← self_table "name";
       logger_error "Couldn't load data into table %s. Here's why: %s: %s"
         [name t; Code; Message];;
       raise (ClientError Code Message))
    (fun _ => mret tt).

(** [json.load(forum_file, parse_float=Decimal)] on the text of a file. *)
Definition json_load (text : string) : M json :=
  match Json.loads text with
  | Some v => mret v
  | None => raise JSONDecodeError
  end.

Definition get_sample_forum_data (forum_file_name : string) : M json :=
  fun s =>
    match open forum_file_name s with
    | (Raises (FileNotFoundError f), s') =>
        (_ ← print ("File " +:+ forum_file_name +:+
                    " not found. You must first download the file to run this demo...");
         raise (FileNotFoundError f)) s'
    | (Raises e, s') => (Raises e, s')
    | (Unfinished, s') => (Unfinished, s')
    | (Returns forum_file, s') =>
        (forum_data ← json_load forum_file;
         mret forum_data) s'
    end.

Definition get_forum (name_ : string) : M item :=
  try_except_else
    (t ← self_table "get_item";
     call (GetItem (name t) {[ "Name" := VStr name_ ]}))
    (fun Code Message =>
       t ← self_table "name";
       logger_error "Couldn't get forum %s from table %s. Here's why: %s: %s"
         [name_; name t; Code; Message];;
       raise (ClientError Code Message))
    (fun response => subscript (Item response) "Item").

Fixpoint scan_loop (fuel : nat) (forums : list item)
    (scan_kwargs : gmap string item) (start_key : option item)
    : M (list item) :=
  match fuel with
  | O => unfinished
  | S fuel' =>
      let scan_kwargs :=
        match start_key with
        | Some k =>
            if truthy start_key
            then <["ExclusiveStartKey" := k]> scan_kwargs
            else scan_kwargs
        | None => scan_kwargs
        end in
      t ← self_table "scan";
      response ← call (Scan (name t) scan_kwargs);
      let forums := forums ++ default [] (Items response) in
      let start_key := LastEvaluatedKey response in
      match start_key with
      | None => mret forums
      | Some _ => scan_loop fuel' forums scan_kwargs start_key
      end
  end.

(** [fuel] bounds the number of turns of the [while] loop. *)
Definition scan_forums (fuel : nat) : M (list item) :=
  try_except_else
    (scan_loop fuel [] ∅ None)
    (fun Code Message =>
       logger_error "Couldn't scan for forums. Here's why: %s: %s"
         [Code; Message];;
       raise (ClientError Code Message))
    (fun forums => mret forums).

Definition add_forum (name_ : string) (category messages threads views : value)
    : M unit :=
  try_except_else
    (t ← self_table "put_item";
     _ ← call (PutItem (name t)
                 {[ "Name" := VStr name_;
                    "Category" := category;
                    "Messages" := messages;
                    "Threads" := threads;
                    "Views" := views ]});
     mret tt)
    (fun Code Message =>
       t ← self_table "name";
       logger_error "Couldn't add forum %s to table %s. Here's why: %s: %s"
         [name_; name t; Code; Message];;
       raise (ClientError Code Message))
    (fun _ => mret tt).

Definition update_forum (name_ : string)
    (category messages threads views : value) : M item :=
  try_except_else
    (t ← self_table "update_item";
     call (UpdateItem (name t)
             {[ "Name" := VStr name_ ]}
             "set Category=:c, Messages=:m, Threads=:t, #Views=:v"
             {[ ":c" := category;
                ":m" := messages;
                ":t" := threads;
                ":v" := views ]}
             {[ "#Views" := "Views" ]}
             "UPDATED_NEW"))
    (fun Code Message =>
       t ← self_table "name";
       logger_error "Couldn't update forum %s in table %s. Here's why: %s: %s"
         [name_; name t; Code; Message];;
       raise (ClientError Code Message))
    (fun response => subscript (Attributes response) "Attributes").

Definition delete_forum (name_ : string) : M unit :=
  try_except_else
    (t ← self_table "delete_item";
     _ ← call (DeleteItem (name t) {[ "Name" := VStr name_ ]});
     mret tt)
    (fun Code Message =>
       logger_error "Couldn't delete forum %s. Here's why: %s: %s"
         [name_; Code; Message];;
       raise (ClientError Code Message))
    (fun _ => mret tt).

Definition delete_table : M unit :=
  try_except_else
    (t ← self_table "delete";
     _ ← call (DeleteTable (name t));
     set_table None)
    (fun Code Message =>
       logger_error "Couldn't delete table. Here's why: %s: %s"
         [Code; Message];;
       raise (ClientError Code Message))
    (fun _ => mret tt).

(** *** The operations of the class, as one type

    Every method that talks to the service, with its arguments; [perform]
    runs one and forgets the value it returns. *)
Inductive operation :=
| Exists (table_name : string)
| CreateTable_ (table_name : string)
| WriteBatch (forums : list item)
| GetForum (name_ : string)
| ScanForums (fuel : nat)
| AddForum (name_ : string) (category messages threads views : value)
| UpdateForum (name_ : string) (category messages threads views : value)
| DeleteForum (name_ : string)
| DeleteTable_.

Definition void {A} (m : M A) : M unit := _ ← m; mret tt.

Definition perform (op : operation) : M unit :=
  match op with
  | Exists table_name => void (exists_ table_name)
  | CreateTable_ table_name => void (create_table table_name)
  | WriteBatch forums => write_batch forums
  | GetForum name_ => void (get_forum name_)
  | ScanForums fuel => void (scan_forums fuel)
  | AddForum name_ c m t v => add_forum name_ c m t v
  | UpdateForum name_ c m t v => void (update_forum name_ c m t v)
  | DeleteForum name_ => delete_forum name_
  | DeleteTable_ => delete_table
  end.

(** The one fault a method absorbs: [exists] on "not found". *)
Definition swallowed (op : operation) (Code : string) : bool :=
  match op with
  | Exists _ => String.eqb Code "ResourceNotFoundException"
  | _ => false
  end.

(** The exchanges that took place between two environments. *)
Definition sent_during (s s' : env) : list (request * reply) :=
  drop (length (wire s)) (wire s').

End Facade.

Arguments env W : clear implicits.
Arguments M W A : clear implicits.

(** ** The service: an in-memory DynamoDB

    The store behind the client, with the behaviour the service documents
    for the requests the facade sends: tables with one string partition
    key, items addressed by the value of that key, [ResourceNotFoundException]
    for a table that does not exist, [ValidationException] for a key that
    does not fit the schema.  A scan walks the items in the store's own
    order and cuts pages where [page_sizes] says: each scan request takes
    the next size from the list, and a request that finds the list empty
    gets everything that is left. *)
Module DynamoDB.

Record table_state := {
  hash_key : string;
  rows : gmap string item
}.

Record world := {
  tables : gmap string table_state;
  page_sizes : list positive
}.

Definition not_found : reply :=
  Fault "ResourceNotFoundException" "Requested resource not found".

Definition in_use : reply :=
  Fault "ResourceInUseException" "Table already exists".

Definition invalid (why : string) : reply :=
  Fault "ValidationException" why.

Definition ok : reply := Ok empty_response.

(** The partition key of an item: a non-empty string under the table's key
    attribute. *)
Definition key_value (hk : string) (it : item) : option string :=
  match it !! hk with
  | Some (VStr k) => if decide (k = "") then None else Some k
  | _ => None
  end.

(** A [Key] argument names the key attribute and nothing else. *)
Definition key_of_Key (hk : string) (Key : item) : option string :=
  if decide (size Key = 1%nat) then key_value hk Key else None.

Definition set_rows (w : world) (t : string) (tbl : table_state)
    (rows' : gmap string item) : world :=
  {| tables := <[t := {| hash_key := hash_key tbl; rows := rows' |}]> (tables w);
     page_sizes := page_sizes w |}.

(** *** Update expressions of the form [set a = :x, #b = :y, ...] *)

Fixpoint lstrip (s : string) : string :=
  match s with
  | String " "%char s' => lstrip s'
  | _ => s
  end.

Definition reverse_string (s : string) : string :=
  String.string_of_list_ascii (rev (String.list_ascii_of_string s)).

Definition strip (s : string) : string :=
  reverse_string (lstrip (reverse_string (lstrip s))).

Fixpoint split (sep : ascii) (s : string) : list string :=
  match s with
  | EmptyString => [""]
  | String c s' =>
      if Ascii.eqb c sep then "" :: split sep s'
      else
        match split sep s' with
        | w :: ws => String c w :: ws
        | [] => [String c ""]
        end
  end.

Definition parse_assignment (clause : string) : option (string * string) :=
  match split "="%char clause with
  | [path; operand] =>
      let path := strip path in
      let operand := strip operand in
      if decide (path = "" ∨ operand = "") then None else Some (path, operand)
  | _ => None
  end.

Definition parse_update_expression (e : string) : option (list (string * string)) :=
  match lstrip e with
  | String k1 (String k2 (String k3 (String " "%char body))) =>
      if decide (String k1 (String k2 (String k3 "")) = "set"
                 ∨ String k1 (String k2 (String k3 "")) = "SET")
      then mapM parse_assignment (split ","%char body)
      else None
  | _ => None
  end.

Definition resolve_path (names : gmap string string) (path : string)
    : option string :=
  match path with
  | String "#"%char _ => names !! path
  | _ => Some path
  end.

Definition resolve_operand (values : item) (operand : string) : option value :=
  match operand with
  | String ":"%char _ => values !! operand
  | _ => None
  end.

Definition resolve_assignment (names : gmap string string) (values : item)
    (a : string * string) : option (string * value) :=
  attr ← resolve_path names a.1;
  v ← resolve_operand values a.2;
  Some (attr, v).

(** The assignments are applied left to right. *)
Definition assign (it : item) (sets : list (string * value)) : item :=
  foldl (fun acc a => <[a.1 := a.2]> acc) it sets.

(** Projection of an item on the attributes an update names. *)
Definition updated (it : item) (sets : list (string * value)) : item :=
  filter (fun kv => kv.1 ∈ sets.*1) it.

Definition return_values (mode : string) (old : option item) (new : item)
    (sets : list (string * value)) : option (option item) :=
  if decide (mode = "NONE") then Some None
  else if decide (mode = "ALL_OLD") then Some old
  else if decide (mode = "UPDATED_OLD") then Some ((fun o => updated o sets) <$> old)
  else if decide (mode = "ALL_NEW") then Some (Some new)
  else if decide (mode = "UPDATED_NEW") then Some (Some (updated new sets))
  else None.

(** *** Scans *)

(** What follows the item of key [k] in the store's order. *)
Fixpoint after (k : string) (l : list (string * item)) : list (string * item) :=
  match l with
  | [] => []
  | kv :: l' => if decide (kv.1 = k) then l' else after k l'
  end.

(** The continuation token that names a key: a [Key] dict. *)
Definition token_of (hk : string) (k : option string) : option item :=
  (fun k => {[ hk := VStr k ]}) <$> k.

Definition scan_page (tbl : table_state) (start : option string)
    (limit : option positive) : response :=
  let rest :=
    match start with
    | None => map_to_list (rows tbl)
    | Some k => after k (map_to_list (rows tbl))
    end in
  let cut :=
    match limit with
    | Some n => bool_decide (Pos.to_nat n ≤ length rest)%nat
    | None => false
    end in
  let page :=
    match limit with
    | Some n => if cut then take (Pos.to_nat n) rest else rest
    | None => rest
    end in
  {| Item := None;
     Items := Some page.*2;
     LastEvaluatedKey :=
       if cut then token_of (hash_key tbl) (fst <$> last page) else None;
     Attributes := None |}.

Definition put_all (hk : string) (its : list item)
    (rows0 : gmap string item) : option (gmap string item) :=
  foldl (fun acc it =>
           r ← acc; k ← key_value hk it; Some (<[k := it]> r))
        (Some rows0) its.

(** *** The transition function *)

Definition serve (r : request) (w : world) : reply * world :=
  match r with
  | DescribeTable t | WaitUntilExists t =>
      match tables w !! t with
      | Some _ => (ok, w)
      | None => (not_found, w)
      end
  | CreateTable t KeySchema AttributeDefinitions _ _ =>
      match tables w !! t with
      | Some _ => (in_use, w)
      | None =>
          match KeySchema, AttributeDefinitions with
          | [(hk, "HASH")], [(a, "S")] =>
              if decide (hk = a) then
                (ok, {| tables := <[t := {| hash_key := hk; rows := ∅ |}]> (tables w);
                        page_sizes := page_sizes w |})
              else (invalid "key schema does not match attribute definitions", w)
          | _, _ => (invalid "unsupported key schema", w)
          end
      end
  | DeleteTable t =>
      match tables w !! t with
      | Some _ => (ok, {| tables := delete t (tables w); page_sizes := page_sizes w |})
      | None => (not_found, w)
      end
  | PutItem t it =>
      match tables w !! t with
      | None => (not_found, w)
      | Some tbl =>
          match key_value (hash_key tbl) it with
          | None => (invalid "missing or empty key", w)
          | Some k => (ok, set_rows w t tbl (<[k := it]> (rows tbl)))
          end
      end
  | BatchWriteItem t its =>
      match tables w !! t with
      | None => (not_found, w)
      | Some tbl =>
          match put_all (hash_key tbl) its (rows tbl) with
          | None => (invalid "missing or empty key", w)
          | Some rows' => (ok, set_rows w t tbl rows')
          end
      end
  | GetItem t Key =>
      match tables w !! t with
      | None => (not_found, w)
      | Some tbl =>
          match key_of_Key (hash_key tbl) Key with
          | None => (invalid "the provided key element does not match the schema", w)
          | Some k =>
              (Ok {| Item := rows tbl !! k; Items := None;
                     LastEvaluatedKey := None; Attributes := None |}, w)
          end
      end
  | DeleteItem t Key =>
      match tables w !! t with
      | None => (not_found, w)
      | Some tbl =>
          match key_of_Key (hash_key tbl) Key with
          | None => (invalid "the provided key element does not match the schema", w)
          | Some k => (ok, set_rows w t tbl (delete k (rows tbl)))
          end
      end
  | UpdateItem t Key e values names mode =>
      match tables w !! t with
      | None => (not_found, w)
      | Some tbl =>
          match key_of_Key (hash_key tbl) Key with
          | None => (invalid "the provided key element does not match the schema", w)
          | Some k =>
              match parse_update_expression e ≫= mapM (resolve_assignment names values) with
              | None => (invalid "invalid UpdateExpression", w)
              | Some sets =>
                  if decide (hash_key tbl ∈ sets.*1)
                  then (invalid "cannot update an attribute that is part of the key", w)
                  else
                    let old := rows tbl !! k in
                    let new := assign (default Key old) sets in
                    match return_values mode old new sets with
                    | None => (invalid "invalid ReturnValues", w)
                    | Some attrs =>
                        (Ok {| Item := None; Items := None;
                               LastEvaluatedKey := None; Attributes := attrs |},
                         set_rows w t tbl (<[k := new]> (rows tbl)))
                    end
              end
          end
      end
  | Scan t kwargs =>
      match tables w !! t with
      | None => (not_found, w)
      | Some tbl =>
          let w' := {| tables := tables w; page_sizes := tail (page_sizes w) |} in
          match kwargs !! "ExclusiveStartKey" with
          | None => (Ok (scan_page tbl None (head (page_sizes w))), w')
          | Some Key =>
              match key_of_Key (hash_key tbl) Key with
              | None => (invalid "the provided starting key is invalid", w)
              | Some k => (Ok (scan_page tbl (Some k) (head (page_sizes w))), w')
              end
          end
      end
  end.

Definition empty_world : world := {| tables := ∅; page_sizes := [] |}.

End DynamoDB.

(** The request [update_forum] sends for a forum of a table. *)
Definition update_request (t n : string) (c m th v : value) : request :=
  UpdateItem t {[ "Name" := VStr n ]}
    "set Category=:c, Messages=:m, Threads=:t, #Views=:v"
    {[ ":c" := c; ":m" := m; ":t" := th; ":v" := v ]}
    {[ "#Views" := "Views" ]}
    "UPDATED_NEW".

(** The record [add_forum] and [update_forum] speak of, as a dict. *)
Definition forum_item (n : string) (c m th v : value) : item :=
  {[ "Name" := VStr n; "Category" := c; "Messages" := m;
     "Threads" := th; "Views" := v ]}.

(** The four attributes other than the key, as a dict. *)
Definition forum_attributes (c m th v : value) : item :=
  {[ "Category" := c; "Messages" := m; "Threads" := th; "Views" := v ]}.

(** The facade holds a handle on table [t], which the store has with the
    key schema [create_table] declares and the rows [rs]. *)
Definition bound_to (s : env DynamoDB.world) (t : string)
    (rs : gmap string item) : Prop :=
  table s = Some {| name := t |}
  ∧ DynamoDB.tables (remote s) !! t
    = Some {| DynamoDB.hash_key := "Name"; DynamoDB.rows := rs |}.

(** *** The pagination protocol of a scan, read off the wire

    [follows_tokens t token tr]: the exchanges [tr] are scans of table [t];
    the first carries [token] as its [ExclusiveStartKey] (none when
    [token] is [None]); a reply with a [LastEvaluatedKey] is followed by a
    request that carries it; a reply without one is the last. *)
Definition start_kwargs (token : option item) : gmap string item :=
  match token with
  | Some k => {[ "ExclusiveStartKey" := k ]}
  | None => ∅
  end.

Fixpoint follows_tokens (t : string) (token : option item)
    (tr : list (request * reply)) : Prop :=
  match tr with
  | [] => False
  | (req, rep) :: tr' =>
      req = Scan t (start_kwargs token)
      ∧ ∃ resp, rep = Ok resp
          ∧ match LastEvaluatedKey resp with
            | None => tr' = []
            | Some k => follows_tokens t (Some k) tr'
            end
  end.

(** The items of all the pages of a sequence of exchanges. *)
Definition page_items (x : request * reply) : list item :=
  match x.2 with
  | Ok resp => default [] (Items resp)
  | Fault _ _ => []
  end.

Definition pages (tr : list (request * reply)) : list item :=
  concat (page_items <$> tr).

(** Every row of a table is stored under its own key.  The store keeps
    this: it files an item under the value of its key attribute. *)
Definition well_keyed (tbl : DynamoDB.table_state) : Prop :=
  ∀ k it,
    DynamoDB.rows tbl !! k = Some it →
    DynamoDB.key_value (DynamoDB.hash_key tbl) it = Some k.

Definition well_keyed_world (w : DynamoDB.world) : Prop :=
  ∀ t tbl, DynamoDB.tables w !! t = Some tbl → well_keyed tbl.

(** The keys of a list of items of a table. *)
Definition keys_of (tbl : DynamoDB.table_state) (its : list item) : list string :=
  omap (DynamoDB.key_value (DynamoDB.hash_key tbl)) its.

(** ** Sample data files

    A sample forum, and the text of a JSON file that holds a list of them:
    an array of objects with the five fields, the counts written as
    integers, in the layout of [json.dumps].  The text is built from the
    end: [k] is what follows. *)
Record sample := {
  sample_name : string;
  sample_category : string;
  sample_messages : Z;
  sample_threads : Z;
  sample_views : Z
}.

Module Sample.

(** A string that needs no escape: no quote, no backslash, no control
    character. *)
Fixpoint plain (s : string) : bool :=
  match s with
  | String c r =>
      negb (Ascii.eqb c Json.dquote) && negb (Ascii.eqb c "\")
      && negb (Json.is_control c) && plain r
  | EmptyString => true
  end.

Definition put_string (s k : string) : string :=
  String Json.dquote (s +:+ String Json.dquote k).

Definition put_int (z : Z) (k : string) : string :=
  NilZero.string_of_int (Z.to_int z) +:+ k.

Definition put_forum (r : sample) (k : string) : string :=
  "{" +:+ put_string "Name" (": " +:+ put_string (sample_name r) (", " +:+
  put_string "Category" (": " +:+ put_string (sample_category r) (", " +:+
  put_string "Messages" (": " +:+ put_int (sample_messages r) (", " +:+
  put_string "Threads" (": " +:+ put_int (sample_threads r) (", " +:+
  put_string "Views" (": " +:+ put_int (sample_views r) ("}" +:+ k)))))))))).

Fixpoint put_elements (r : sample) (rs : list sample) (k : string) : string :=
  put_forum r
    match rs with
    | [] => "]" +:+ k
    | r' :: rs' => ", " +:+ put_elements r' rs' k
    end.

Definition put_forums (rs : list sample) (k : string) : string :=
  match rs with
  | [] => "[]" +:+ k
  | r :: rs' => "[" +:+ put_elements r rs' k
  end.

(** The text of the file. *)
Definition text (rs : list sample) : string := put_forums rs EmptyString.

(** What may follow an integer literal for the literal to end there: not
    a digit, and nothing that opens a fraction or an exponent. *)
Definition no_digit (rest : string) : Prop :=
  match rest with
  | String c _ => Json.digit_of c = None
  | EmptyString => True
  end.

(** The digits of an integer literal: [0] alone, or digits that do not
    start with [0]. *)
Definition well_headed (d : Decimal.uint) : Prop :=
  match d with
  | Decimal.Nil => False
  | Decimal.D0 Decimal.Nil => True
  | Decimal.D0 _ => False
  | _ => True
  end.

Definition ends_number (rest : string) : Prop :=
  match rest with
  | String c _ =>
      Json.digit_of c = None ∧ c ≠ "."%char ∧ c ≠ "e"%char ∧ c ≠ "E"%char
  | EmptyString => True
  end.

(** The strings of a sample can be written without escapes. *)
Definition unescaped (r : sample) : bool :=
  plain (sample_name r) && plain (sample_category r).

(** What the decoder is to return for a sample. *)
Definition decoded (r : sample) : json :=
  JDict [("Name", JStr (sample_name r));
         ("Category", JStr (sample_category r));
         ("Messages", JInt (sample_messages r));
         ("Threads", JInt (sample_threads r));
         ("Views", JInt (sample_views r))].

End Sample.

(** A fresh [Forum(dyn_resource)]: no table yet, nothing sent or logged. *)
Definition Forum_init {W} (w : W) (fs : gmap string string) : env W :=
  {| table := None; remote := w; wire := []; records := []; stdout := [];
     files := fs |}.

(** The facade right after the demo created its table: an empty table
    ["Forum"] and a handle on it. *)
Definition forum_env : env DynamoDB.world :=
  (create_table DynamoDB.serve "Forum"
     (Forum_init DynamoDB.empty_world ∅)).2.

(** The demo after it loaded a forum of the sample file and added the
    forum ["SQL server"]; [sizes] is how the service will cut the pages
    of the scans to come. *)
Definition sample_forum : item :=
  forum_item "Amazon DynamoDB" (VStr "Amazon Web Services")
    (VInt 2) (VInt 4) (VInt 1000).

Definition demo_env (sizes : list positive) : env DynamoDB.world :=
  let s1 := (write_batch DynamoDB.serve [sample_forum] forum_env).2 in
  let s2 := (add_forum DynamoDB.serve "SQL server"
               (VStr "Amazon Web Services") (VInt 4) (VInt 2) (VInt 1000)
               s1).2 in
  {| table := table s2;
     remote := {| DynamoDB.tables := DynamoDB.tables (remote s2);
                  DynamoDB.page_sizes := sizes |};
     wire := wire s2; records := records s2; stdout := stdout s2;
     files := files s2 |}.

(** The forum the demo adds, with its count of views, and the rows of the
    table of [demo_env]. *)
Definition sql_server (views : Z) : item :=
  forum_item "SQL server" (VStr "Amazon Web Services")
    (VInt 4) (VInt 2) (VInt views).

Definition demo_rows : gmap string item :=
  <["SQL server" := sql_server 1000]> (<["Amazon DynamoDB" := sample_forum]> ∅).

Definition demo_table : DynamoDB.table_state :=
  {| DynamoDB.hash_key := "Name"; DynamoDB.rows := demo_rows |}.

(** A sample file of two forums, one of them with a large count of
    views, and a facade that finds the file where the demo looks for it. *)
Definition sample_forums : list sample :=
  [ {| sample_name := "Amazon DynamoDB";
       sample_category := "Amazon Web Services";
       sample_messages := 2; sample_threads := 4;
       sample_views := 1000000000000 |};
    {| sample_name := "Amazon S3";
       sample_category := "Amazon Web Services";
       sample_messages := 0; sample_threads := 0;
       sample_views := -1 |} ].

Definition sample_env : env DynamoDB.world :=
  Forum_init DynamoDB.empty_world
    {[ "./sampledata/Forum.json" := Sample.text sample_forums ]}.

(** A service out of capacity: it rejects every request. *)
Definition throttled (r : request) (w : unit) : reply * unit :=
  (Fault "ProvisionedThroughputExceededException" "Rate exceeded", w).

(** A facade with a handle on a table of that service. *)
Definition throttled_env : env unit :=
  {| table := Some {| name := "Forum" |}; remote := tt; wire := [];
     records := []; stdout := []; files := ∅ |}.

(** No reply of a trace carries an empty dict as its [LastEvaluatedKey]:
    a key of the service names at least the partition key. *)
Definition tokens_nonempty (tr : list (request * reply)) : Prop :=
  ∀ req resp, (req, Ok resp) ∈ tr → LastEvaluatedKey resp ≠ Some ∅.

(** A service that answers every request with an empty page and an empty
    dict for [LastEvaluatedKey]. *)
Definition stuttering (r : request) (w : unit) : reply * unit :=
  (Ok {| Item := None; Items := Some []; LastEvaluatedKey := Some ∅;
         Attributes := None |}, w).

(** A record after [update_forum] rewrote its four attributes. *)
Definition rewritten (c m th v : value) (old : item) : item :=
  <["Views" := v]> (<["Threads" := th]> (<["Messages" := m]>
    (<["Category" := c]> old))).

(** The rows of a table are filed under their [Name]. *)
Definition filed_by_name (rs : gmap string item) : Prop :=
  ∀ k it, rs !! k = Some it → DynamoDB.key_value "Name" it = Some k.

(** * Properties *)

(** ** What each method does, for any service *)

Section Methods.

Context {W : Type}.
Variable serve : request → W → reply * W.

Ltac unfold_method :=
  unfold exists_, create_table, write_batch, get_forum, scan_forums, add_forum,
    update_forum, delete_forum, delete_table, try_except_else, subscript,
    mbind, mret, M_bind, M_ret, bind, ret, raise, self_table, set_table,
    logger_error, call.

Ltac run_method H :=
  unfold_method; simpl; rewrite ?H; simpl;
  repeat match goal with
         | |- context [serve ?r ?w] => destruct (serve r w) as [[?|? ?] ?]; simpl
         end;
  rewrite ?H; try reflexivity.

Lemma exists_run (table_name : string) (s : env W) :
  exists_ serve table_name s =
    let '(rep, w') := serve (DescribeTable table_name) (remote s) in
    let s1 := exchange s (DescribeTable table_name) rep w' in
    match rep with
    | Ok _ => (Returns true, with_table s1 (Some {| name := table_name |}))
    | Fault Code Message =>
        if String.eqb Code "ResourceNotFoundException" then (Returns false, s1)
        else (Raises (ClientError Code Message),
              with_record s1
                (error_record "Couldn't check for existence of %s. Here's why: %s: %s"
                   [table_name; Code; Message]))
    end.
Proof.
  run_method I.
  destruct (String.eqb _ _); reflexivity.
Qed.

Lemma get_forum_run (n : string) (s : env W) (h : Table) :
  table s = Some h →
  get_forum serve n s =
    let '(rep, w') := serve (GetItem (name h) {[ "Name" := VStr n ]}) (remote s) in
    let s1 := exchange s (GetItem (name h) {[ "Name" := VStr n ]}) rep w' in
    match rep with
    | Ok resp =>
        (match Item resp with
         | Some it => Returns it
         | None => Raises (KeyError "Item")
         end, s1)
    | Fault Code Message =>
        (Raises (ClientError Code Message),
         with_record s1
           (error_record "Couldn't get forum %s from table %s. Here's why: %s: %s"
              [n; name h; Code; Message]))
    end.
Proof.
  intros H. run_method H.
  destruct (Item _); reflexivity.
Qed.

Lemma add_forum_run (n : string) (c m th v : value) (s : env W) (h : Table) :
  table s = Some h →
  let it : item := {[ "Name" := VStr n; "Category" := c; "Messages" := m;
                      "Threads" := th; "Views" := v ]} in
  add_forum serve n c m th v s =
    let '(rep, w') := serve (PutItem (name h) it) (remote s) in
    let s1 := exchange s (PutItem (name h) it) rep w' in
    match rep with
    | Ok _ => (Returns tt, s1)
    | Fault Code Message =>
        (Raises (ClientError Code Message),
         with_record s1
           (error_record "Couldn't add forum %s to table %s. Here's why: %s: %s"
              [n; name h; Code; Message]))
    end.
Proof. intros H it. subst it. run_method H. Qed.

Lemma update_forum_run (n : string) (c m th v : value) (s : env W) (h : Table) :
  table s = Some h →
  update_forum serve n c m th v s =
    let '(rep, w') := serve (update_request (name h) n c m th v) (remote s) in
    let s1 := exchange s (update_request (name h) n c m th v) rep w' in
    match rep with
    | Ok resp =>
        (match Attributes resp with
         | Some a => Returns a
         | None => Raises (KeyError "Attributes")
         end, s1)
    | Fault Code Message =>
        (Raises (ClientError Code Message),
         with_record s1
           (error_record "Couldn't update forum %s in table %s. Here's why: %s: %s"
              [n; name h; Code; Message]))
    end.
Proof.
  intros H. unfold update_request. run_method H.
  destruct (Attributes _); reflexivity.
Qed.

Lemma delete_forum_run (n : string) (s : env W) (h : Table) :
  table s = Some h →
  delete_forum serve n s =
    let '(rep, w') := serve (DeleteItem (name h) {[ "Name" := VStr n ]}) (remote s) in
    let s1 := exchange s (DeleteItem (name h) {[ "Name" := VStr n ]}) rep w' in
    match rep with
    | Ok _ => (Returns tt, s1)
    | Fault Code Message =>
        (Raises (ClientError Code Message),
         with_record s1
           (error_record "Couldn't delete forum %s. Here's why: %s: %s"
              [n; Code; Message]))
    end.
Proof. intros H. run_method H. Qed.

Lemma delete_table_run (s : env W) (h : Table) :
  table s = Some h →
  delete_table serve s =
    let '(rep, w') := serve (DeleteTable (name h)) (remote s) in
    let s1 := exchange s (DeleteTable (name h)) rep w' in
    match rep with
    | Ok _ => (Returns tt, with_table s1 None)
    | Fault Code Message =>
        (Raises (ClientError Code Message),
         with_record s1
           (error_record "Couldn't delete table. Here's why: %s: %s"
              [Code; Message]))
    end.
Proof. intros H. run_method H. Qed.

Lemma write_batch_run (forums : list item) (s : env W) (h : Table) :
  table s = Some h →
  write_batch serve forums s =
    let '(rep, w') := serve (BatchWriteItem (name h) forums) (remote s) in
    let s1 := exchange s (BatchWriteItem (name h) forums) rep w' in
    match rep with
    | Ok _ => (Returns tt, s1)
    | Fault Code Message =>
        (Raises (ClientError Code Message),
         with_record s1
           (error_record "Couldn't load data into table %s. Here's why: %s: %s"
              [name h; Code; Message]))
    end.
Proof. intros H. run_method H. Qed.

End Methods.

(** ** The in-memory service *)

Section Store.

Import DynamoDB.

Lemma key_of_Key_singleton (hk n : string) :
  n ≠ "" → key_of_Key hk {[ hk := VStr n ]} = Some n.
Proof.
  intros Hn. unfold key_of_Key, key_value.
  rewrite map_size_singleton, lookup_singleton_eq. simpl.
  destruct (decide (n = "")); [done | reflexivity].
Qed.

Lemma key_value_record (n : string) (c m th v : value) :
  n ≠ "" →
  key_value "Name" {[ "Name" := VStr n; "Category" := c; "Messages" := m;
                      "Threads" := th; "Views" := v ]} = Some n.
Proof.
  intros Hn. unfold key_value. rewrite lookup_insert_eq.
  destruct (decide (n = "")); [done | reflexivity].
Qed.

Lemma resolve_sets (c m th v : value) :
  parse_update_expression "set Category=:c, Messages=:m, Threads=:t, #Views=:v"
    ≫= mapM (resolve_assignment {[ "#Views" := "Views" ]}
               {[ ":c" := c; ":m" := m; ":t" := th; ":v" := v ]})
  = Some [("Category", c); ("Messages", m); ("Threads", th); ("Views", v)].
Proof. vm_compute. reflexivity. Qed.

(** The four attributes an update writes, as a dict. *)
Lemma updated_assign (base : item) (c m th v : value) :
  updated
    (assign base [("Category", c); ("Messages", m); ("Threads", th); ("Views", v)])
    [("Category", c); ("Messages", m); ("Threads", th); ("Views", v)]
  = {[ "Category" := c; "Messages" := m; "Threads" := th; "Views" := v ]}.
Proof.
  unfold updated, assign. simpl.
  apply map_eq. intros i.
  rewrite map_lookup_filter.
  assert (Hhit : ∀ x : value,
             i ∈ ["Category"; "Messages"; "Threads"; "Views"] →
             (Some x ≫= λ y : value,
                guard ((i, y).1 ∈ ["Category"; "Messages"; "Threads"; "Views"]);;
                Some y) = Some x).
  { intros x Hi. simpl. rewrite option_guard_True by exact Hi. reflexivity. }
  destruct (decide (i = "Views")) as [->|H1].
  { simplify_map_eq. apply Hhit. set_solver. }
  destruct (decide (i = "Threads")) as [->|H2].
  { simplify_map_eq. apply Hhit. set_solver. }
  destruct (decide (i = "Messages")) as [->|H3].
  { simplify_map_eq. apply Hhit. set_solver. }
  destruct (decide (i = "Category")) as [->|H4].
  { simplify_map_eq. apply Hhit. set_solver. }
  rewrite !lookup_insert_ne by done.
  rewrite lookup_singleton_ne by done.
  destruct (base !! i) as [x|]; simpl; [|reflexivity].
  rewrite option_guard_False; [reflexivity|].
  simpl. intros Hi.
  repeat (apply elem_of_cons in Hi as [Hi|Hi]; [congruence|]).
  by apply elem_of_nil in Hi.
Qed.

Lemma return_values_updated_new (old : option item) (new : item)
    (sets : list (string * value)) :
  return_values "UPDATED_NEW" old new sets = Some (Some (updated new sets)).
Proof. reflexivity. Qed.

Lemma serve_put (w : world) (t : string) (tbl : table_state) (it : item) (k : string) :
  tables w !! t = Some tbl →
  key_value (hash_key tbl) it = Some k →
  serve (PutItem t it) w = (Ok empty_response, set_rows w t tbl (<[k := it]> (rows tbl))).
Proof. intros Ht Hk. simpl. rewrite Ht, Hk. reflexivity. Qed.

Lemma serve_get (w : world) (t : string) (tbl : table_state) (n : string) :
  tables w !! t = Some tbl →
  hash_key tbl = "Name" →
  n ≠ "" →
  serve (GetItem t {[ "Name" := VStr n ]}) w
  = (Ok {| Item := rows tbl !! n; Items := None; LastEvaluatedKey := None;
           Attributes := None |}, w).
Proof.
  intros Ht Hhk Hn. simpl. rewrite Ht, Hhk, (key_of_Key_singleton _ _ Hn).
  reflexivity.
Qed.

Lemma serve_delete (w : world) (t : string) (tbl : table_state) (n : string) :
  tables w !! t = Some tbl →
  hash_key tbl = "Name" →
  n ≠ "" →
  serve (DeleteItem t {[ "Name" := VStr n ]}) w
  = (Ok empty_response, set_rows w t tbl (delete n (rows tbl))).
Proof.
  intros Ht Hhk Hn. simpl. rewrite Ht, Hhk, (key_of_Key_singleton _ _ Hn).
  reflexivity.
Qed.

Lemma serve_update (w : world) (t : string) (tbl : table_state) (n : string)
    (c m th v : value) :
  tables w !! t = Some tbl →
  hash_key tbl = "Name" →
  n ≠ "" →
  let sets := [("Category", c); ("Messages", m); ("Threads", th); ("Views", v)] in
  let new := assign (default {[ "Name" := VStr n ]} (rows tbl !! n)) sets in
  serve (update_request t n c m th v) w
  = (Ok {| Item := None; Items := None; LastEvaluatedKey := None;
           Attributes := Some {[ "Category" := c; "Messages" := m;
                                 "Threads" := th; "Views" := v ]} |},
     set_rows w t tbl (<[n := new]> (rows tbl))).
Proof.
  intros Ht Hhk Hn sets new. unfold update_request. 
  cbn [serve]. rewrite Ht, Hhk.
  rewrite (key_of_Key_singleton "Name" _ Hn).
  rewrite resolve_sets.
  destruct (decide _) as [Hin|_].
  { exfalso. simpl in Hin.
    repeat (apply elem_of_cons in Hin as [Hin|Hin]; [discriminate|]).
    by apply elem_of_nil in Hin. }
  rewrite return_values_updated_new, updated_assign. reflexivity.
Qed.

Lemma set_rows_lookup (w : world) (t : string) (tbl : table_state)
    (rows' : gmap string item) :
  tables (set_rows w t tbl rows') !! t
  = Some {| hash_key := hash_key tbl; rows := rows' |}.
Proof. unfold set_rows. simpl. apply lookup_insert_eq. Qed.

End Store.

(** ** Records in the store: add, get, update, delete *)

Section Records.

Import DynamoDB.

Lemma bound_to_exchange (s : env world) (t : string) (rs rs' : gmap string item)
    (r : request) (rep : reply) :
  bound_to s t rs →
  bound_to
    (exchange s r rep
       (set_rows (remote s) t {| hash_key := "Name"; rows := rs |} rs'))
    t rs'.
Proof.
  intros [Ht Hw]. split; [exact Ht|]. simpl. apply lookup_insert_eq.
Qed.

Lemma key_of_Key_Name (hk n k : string) :
  key_of_Key hk {[ "Name" := VStr n ]} = Some k →
  hk = "Name" ∧ k = n ∧ n ≠ "".
Proof.
  unfold key_of_Key, key_value. rewrite map_size_singleton. simpl.
  destruct (decide (hk = "Name")) as [->|Hne].
  - rewrite lookup_singleton_eq. destruct (decide (n = "")); [discriminate|].
    intros [= <-]. done.
  - rewrite lookup_singleton_ne by done. discriminate.
Qed.


(** C2.  For a name the table holds no record of,
    [get_forum] sends one [GetItem]; the service answers without a fault
    and without an [Item] entry; [get_forum] then fails on
    [response['Item']] with [KeyError('Item')], which is not a
    [ClientError] and is not logged.  The store is left as it was. *)
Theorem get_forum_missing_key (s : env world) (t : string)
    (rs : gmap string item) (n : string) :
  bound_to s t rs →
  n ≠ "" →
  rs !! n = None →
  get_forum serve n s
  = (Raises (KeyError "Item"),
     exchange s (GetItem t {[ "Name" := VStr n ]})
       (Ok empty_response) (remote s)).
Proof.
  intros [Ht Hw] Hn Hnone.
  rewrite (get_forum_run serve n s _ Ht). simpl name.
  rewrite (serve_get _ _ _ n Hw eq_refl Hn). cbv zeta. cbv iota beta.
  simpl rows. rewrite Hnone. reflexivity.
Qed.

(** C5.  [delete_forum] is an unconditional delete: it
    returns without raising or logging whether or not the table holds a
    record of that name, and the table holds none afterwards.  A
    [get_forum] of the same name then finds no [Item] entry in the
    response and raises [KeyError('Item')]; a second [delete_forum] of
    the name returns as well and leaves the table as it is. *)
Theorem delete_forum_then_get_forum (s : env world) (t : string)
    (rs : gmap string item) (n : string) :
  bound_to s t rs →
  n ≠ "" →
  let '(o1, s1) := delete_forum serve n s in
  let '(o2, s2) := get_forum serve n s1 in
  let '(o3, s3) := delete_forum serve n s2 in
  o1 = Returns tt
  ∧ bound_to s1 t (delete n rs)
  ∧ o2 = Raises (KeyError "Item")
  ∧ o3 = Returns tt
  ∧ bound_to s3 t (delete n rs)
  ∧ records s3 = records s.
Proof.
  intros Hb Hn.
  pose proof Hb as [Ht Hw].
  rewrite (delete_forum_run serve n s _ Ht). simpl name.
  rewrite (serve_delete _ _ _ n Hw eq_refl Hn). cbv zeta. cbv iota beta.
  match goal with |- context [get_forum serve n ?e] => set (s1 := e) end.
  assert (Hb1 : bound_to s1 t (delete n rs))
    by exact (bound_to_exchange s t rs _ _ _ Hb).
  rewrite (get_forum_missing_key _ t (delete n rs) n Hb1 Hn)
    by apply lookup_delete_eq.
  match goal with |- context [delete_forum serve n ?e] => set (s2 := e) end.
  assert (Hb2 : bound_to s2 t (delete n rs)) by exact Hb1.
  pose proof Hb2 as [Ht2 Hw2].
  rewrite (delete_forum_run serve n s2 _ Ht2). simpl name.
  rewrite (serve_delete _ _ _ n Hw2 eq_refl Hn). cbv zeta. cbv iota beta.
  split; [reflexivity|]. split; [exact Hb1|]. split; [reflexivity|].
  split; [reflexivity|]. split; [|reflexivity].
  split; [exact Ht2|]. simpl.
  rewrite lookup_insert_eq, delete_delete_eq. reflexivity.
Qed.



End Records.

(** ** Faults of the service, for any service *)

Section Faults.

Context {W : Type}.
Variable serve : request → W → reply * W.

Lemma create_table_run (table_name : string) (s : env W) :
  let create := CreateTable table_name [("Name", "HASH")] [("Name", "S")] 10 5 in
  let fmt := "Couldn't create table %s. Here's why: %s: %s" in
  create_table serve table_name s =
    let '(rep, w') := serve create (remote s) in
    let s1 := exchange s create rep w' in
    match rep with
    | Fault Code Message =>
        (Raises (ClientError Code Message),
         with_record s1 (error_record fmt [table_name; Code; Message]))
    | Ok _ =>
        let s2 := with_table s1 (Some {| name := table_name |}) in
        let '(rep2, w2) := serve (WaitUntilExists table_name) w' in
        let s3 := exchange s2 (WaitUntilExists table_name) rep2 w2 in
        match rep2 with
        | Ok _ => (Returns {| name := table_name |}, s3)
        | Fault Code Message =>
            (Raises (ClientError Code Message),
             with_record s3 (error_record fmt [table_name; Code; Message]))
        end
    end.
Proof.
  intros create fmt. subst create fmt.
  unfold create_table, try_except_else, mbind, mret, M_bind, M_ret, bind, ret,
    raise, self_table, set_table, logger_error, call.
  simpl.
  destruct (serve (CreateTable _ _ _ _ _) (remote s)) as [[r|c m] w']; simpl;
    [|reflexivity].
  destruct (serve (WaitUntilExists _) w') as [[r2|c m] w2]; reflexivity.
Qed.

(** The loop of [scan_forums] adds exchanges to the wire and touches
    nothing else of the facade; a fault is the last exchange and ends the
    loop with the [ClientError] of that fault. *)
Lemma scan_loop_wire (fuel : nat) (forums : list item)
    (scan_kwargs : gmap string item) (start_key : option item) (s : env W) :
  let r := scan_loop serve fuel forums scan_kwargs start_key s in
  ∃ new,
    wire r.2 = wire s ++ new
    ∧ records r.2 = records s
    ∧ table r.2 = table s
    ∧ ∀ req Code Message,
        (req, Fault Code Message) ∈ new →
        r.1 = Raises (ClientError Code Message)
        ∧ last new = Some (req, Fault Code Message).
Proof.
  revert forums scan_kwargs start_key s.
  induction fuel as [|fuel IH]; intros forums scan_kwargs start_key s; simpl.
  { exists []. rewrite app_nil_r. split; [|split; [|split]]; try reflexivity.
    intros ? ? ? Hin. by apply elem_of_nil in Hin. }
  unfold mbind, M_bind, bind, self_table.
  destruct (table s) as [h|] eqn:Ht; simpl.
  2:{ exists []. rewrite app_nil_r. split; [|split; [|split]]; try done.
      intros ? ? ? Hin. by apply elem_of_nil in Hin. }
  unfold call.
  match goal with
  | |- context [serve ?r (remote s)] =>
      set (req0 := r); destruct (serve req0 (remote s)) as [[resp|c m] w'] eqn:Hs
  end; simpl.
  - destruct (LastEvaluatedKey resp) as [k|] eqn:Hk.
    + match goal with
      | |- context [scan_loop serve fuel ?f ?kw ?st ?e] =>
          destruct (IH f kw st e) as (new & Hw & Hr & Htb & Hf)
      end.
      exists ((req0, Ok resp) :: new).
      split; [rewrite Hw; simpl; by rewrite <- app_assoc|].
      split; [exact Hr|]. split; [by rewrite Htb|].
      intros req c m Hin.
      apply elem_of_cons in Hin as [[=]|Hin].
      apply Hf in Hin as [Ho Hl]. split; [exact Ho|].
      destruct new; [done|exact Hl].
    + exists [(req0, Ok resp)]. simpl. split; [|split; [|split]]; try done.
      intros req c m Hin. apply list_elem_of_singleton in Hin. discriminate.
  - exists [(req0, Fault c m)]. simpl. split; [|split; [|split]]; try done.
    intros req c' m' Hin. apply list_elem_of_singleton in Hin.
    injection Hin as -> -> ->. done.
Qed.

Lemma sent_during_app (s s' : env W) (new : list (request * reply)) :
  wire s' = wire s ++ new → sent_during s s' = new.
Proof. intros H. unfold sent_during. rewrite H. apply drop_app_length. Qed.


Lemma policy_none (op : operation) (s s' : env W) (o : outcome unit) :
  wire s' = wire s →
  ∀ req Code Message,
    (req, Fault Code Message) ∈ sent_during s s' →
    swallowed op Code = false →
    o = Raises (ClientError Code Message)
    ∧ last (wire s') = Some (req, Fault Code Message)
    ∧ ∃ rec, records s' = records s ++ [rec]
        ∧ levelname rec = "ERROR"
        ∧ [Code; Message] `suffix_of` args rec.
Proof.
  intros Hw req c m Hin _.
  rewrite (sent_during_app s s' []) in Hin by (by rewrite app_nil_r).
  by apply elem_of_nil in Hin.
Qed.

Lemma policy_single (op : operation) (s s' : env W) (o : outcome unit)
    (req0 : request) (rep : reply) :
  wire s' = wire s ++ [(req0, rep)] →
  (∀ Code Message,
     rep = Fault Code Message →
     swallowed op Code = false →
     o = Raises (ClientError Code Message)
     ∧ ∃ rec, records s' = records s ++ [rec]
         ∧ levelname rec = "ERROR"
         ∧ [Code; Message] `suffix_of` args rec) →
  ∀ req Code Message,
    (req, Fault Code Message) ∈ sent_during s s' →
    swallowed op Code = false →
    o = Raises (ClientError Code Message)
    ∧ last (wire s') = Some (req, Fault Code Message)
    ∧ ∃ rec, records s' = records s ++ [rec]
        ∧ levelname rec = "ERROR"
        ∧ [Code; Message] `suffix_of` args rec.
Proof.
  intros Hw Hrep req c m Hin Hsw.
  rewrite (sent_during_app s s' _ Hw) in Hin.
  apply list_elem_of_singleton in Hin. injection Hin as -> Hr.
  destruct (Hrep c m (eq_sym Hr) Hsw) as [Ho Hrec].
  split; [exact Ho|]. split; [|exact Hrec].
  rewrite Hw, Hr. apply last_snoc.
Qed.

Ltac logged_with k :=
  split; [reflexivity|];
  eexists; split; [reflexivity|]; split; [reflexivity|]; by exists k.


(** C4.  For every table name, [exists] sends one
    [DescribeTable].  It returns [False] exactly when the service answers
    with [ResourceNotFoundException]; on any other fault it logs and
    raises the [ClientError]; and it stores a handle on the table in
    [self.table] when the table is there, that is when it returns [True].
    When it returns [False] or raises, [self.table] is what it was. *)
Theorem exists_caches_on_success (table_name : string) (s : env W) :
  let '(rep, w') := serve (DescribeTable table_name) (remote s) in
  let '(o, s') := exists_ serve table_name s in
  wire s' = wire s ++ [(DescribeTable table_name, rep)]
  ∧ remote s' = w'
  ∧ (o = Returns false ↔ ∃ m, rep = Fault "ResourceNotFoundException" m)
  ∧ match rep with
    | Ok _ =>
        o = Returns true
        ∧ table s' = Some {| name := table_name |}
        ∧ records s' = records s
    | Fault Code Message =>
        table s' = table s
        ∧ if String.eqb Code "ResourceNotFoundException"
          then o = Returns false ∧ records s' = records s
          else o = Raises (ClientError Code Message)
               ∧ records s'
                 = records s
                   ++ [error_record
                         "Couldn't check for existence of %s. Here's why: %s: %s"
                         [table_name; Code; Message]]
    end.
Proof.
  rewrite exists_run.
  destruct (serve (DescribeTable table_name) (remote s)) as [[r|c m] w'].
  - cbv beta iota zeta. simpl.
    split; [reflexivity|]. split; [reflexivity|].
    split; [|done].
    split; [discriminate|]. intros [? [=]].
  - cbv beta iota zeta.
    destruct (String.eqb c "ResourceNotFoundException") eqn:Hc; simpl.
    + apply String.eqb_eq in Hc as ->.
      split; [reflexivity|]. split; [reflexivity|].
      split; [|done]. split; [by exists m|done].
    + split; [reflexivity|]. split; [reflexivity|].
      split; [|done].
      split; [discriminate|]. intros [m' [= -> _]].
      by rewrite String.eqb_refl in Hc.
Qed.

(** C9.  With a handle in [self.table], [delete_table] sends
    one [DeleteTable] for the table of that handle.  When the service
    accepts it, [delete_table] returns and [self.table] is [None]; when
    the service rejects it, [delete_table] logs, raises the [ClientError]
    of the fault, and leaves the handle in place. *)
Theorem delete_table_clears_handle (s : env W) (h : Table) :
  table s = Some h →
  let '(rep, w') := serve (DeleteTable (name h)) (remote s) in
  let '(o, s') := delete_table serve s in
  wire s' = wire s ++ [(DeleteTable (name h), rep)]
  ∧ remote s' = w'
  ∧ match rep with
    | Ok _ =>
        o = Returns tt ∧ table s' = None ∧ records s' = records s
    | Fault Code Message =>
        o = Raises (ClientError Code Message)
        ∧ table s' = Some h
        ∧ records s'
          = records s
            ++ [error_record "Couldn't delete table. Here's why: %s: %s"
                  [Code; Message]]
    end.
Proof.
  intros Ht. rewrite (delete_table_run serve s h Ht).
  destruct (serve (DeleteTable (name h)) (remote s)) as [[r|c m] w'];
    cbv beta iota zeta; simpl; repeat split; done.
Qed.

End Faults.

(** ** One turn of the scan loop, for any service *)

Section ScanLoop.

Context {W : Type}.
Variable serve : request → W → reply * W.

Lemma scan_loop_step (fuel : nat) (acc : list item)
    (kwargs : gmap string item) (start : option item) (s : env W)
    (h : Table) (resp : response) (w' : W) :
  table s = Some h →
  let kw :=
    match start with
    | Some k =>
        if truthy start then <["ExclusiveStartKey" := k]> kwargs else kwargs
    | None => kwargs
    end in
  serve (Scan (name h) kw) (remote s) = (Ok resp, w') →
  scan_loop serve (S fuel) acc kwargs start s
  = match LastEvaluatedKey resp with
    | None =>
        (Returns (acc ++ default [] (Items resp)),
         exchange s (Scan (name h) kw) (Ok resp) w')
    | Some k =>
        scan_loop serve fuel (acc ++ default [] (Items resp)) kw (Some k)
          (exchange s (Scan (name h) kw) (Ok resp) w')
    end.
Proof.
  intros Ht kw Hs. subst kw. simpl.
  unfold mbind, M_bind, bind, self_table, call. rewrite Ht. simpl.
  rewrite Hs. simpl. destruct (LastEvaluatedKey resp); reflexivity.
Qed.

End ScanLoop.

(** ** Scanning the store page by page *)

Section Scanning.

Import DynamoDB.

Lemma after_last (k : string) (it : item) (done rest : list (string * item)) :
  NoDup (done ++ rest).*1 →
  last done = Some (k, it) →
  after k (done ++ rest) = rest.
Proof.
  intros Hnd Hlast. apply last_Some in Hlast as [d ->].
  rewrite <- app_assoc. simpl.
  induction d as [|[k' it'] d IH]; simpl.
  - destruct (decide (k = k)); [reflexivity|congruence].
  - simpl in Hnd. apply NoDup_cons in Hnd as [Hnotin Hnd].
    destruct (decide (k' = k)) as [->|_]; [|by apply IH].
    exfalso. apply Hnotin. rewrite <- app_assoc, fmap_app. simpl.
    apply elem_of_app. right. apply elem_of_cons. by left.
Qed.

Lemma key_value_nonempty (hk : string) (it : item) (k : string) :
  key_value hk it = Some k → k ≠ "".
Proof.
  unfold key_value. destruct (it !! hk) as [[s| |]|]; try discriminate.
  destruct (decide (s = "")); [discriminate|]. by intros [= <-].
Qed.

Lemma truthy_token (hk k : string) :
  truthy (Some {[ hk := VStr k ]}) = true.
Proof. simpl. apply bool_decide_eq_true. apply map_non_empty_singleton. Qed.

Lemma serve_scan (w : world) (t : string) (tbl : table_state)
    (from : option string) :
  tables w !! t = Some tbl →
  (∀ k, from = Some k → k ≠ "") →
  serve (Scan t (start_kwargs (token_of (hash_key tbl) from))) w
  = (Ok (scan_page tbl from (head (page_sizes w))),
     {| tables := tables w; page_sizes := tail (page_sizes w) |}).
Proof.
  intros Ht Hk. destruct from as [k|]; simpl.
  - rewrite Ht, lookup_singleton_eq.
    rewrite (key_of_Key_singleton _ _ (Hk k eq_refl)). reflexivity.
  - rewrite Ht, lookup_empty. reflexivity.
Qed.

(** The keyword arguments of the next scan: the token of the last reply
    and nothing else, whatever token an earlier turn had left there. *)
Lemma next_kwargs (kwargs : gmap string item) (tbl : table_state)
    (from : option string) :
  (from = None → kwargs = ∅) →
  kwargs = ∅ ∨ (∃ k0, kwargs = {[ "ExclusiveStartKey" := k0 ]}) →
  match token_of (hash_key tbl) from with
  | Some k =>
      if truthy (token_of (hash_key tbl) from)
      then <["ExclusiveStartKey" := k]> kwargs else kwargs
  | None => kwargs
  end = start_kwargs (token_of (hash_key tbl) from).
Proof.
  intros Hnone Hkw. destruct from as [k|]; simpl token_of.
  - rewrite truthy_token. simpl.
    destruct Hkw as [->|[k0 ->]]; [apply insert_empty|apply insert_singleton_eq].
  - by apply Hnone.
Qed.

(** Where the scan resumes: after the last item already sent. *)
Lemma resume_rest (all done rest : list (string * item)) :
  NoDup all.*1 →
  all = done ++ rest →
  match fst <$> last done with
  | None => all
  | Some k => after k all
  end = rest.
Proof.
  intros Hnd ->. destruct (last done) as [[k it]|] eqn:Hlast; simpl.
  - by apply (after_last k it).
  - apply last_None in Hlast as ->. reflexivity.
Qed.

Lemma scan_page_rest (tbl : table_state) (from : option string)
    (limit : option positive) (rest : list (string * item)) :
  match from with
  | None => map_to_list (rows tbl)
  | Some k => after k (map_to_list (rows tbl))
  end = rest →
  match limit with
  | Some n => (length rest < Pos.to_nat n)%nat
  | None => True
  end →
  scan_page tbl from limit
  = {| Item := None; Items := Some rest.*2; LastEvaluatedKey := None;
       Attributes := None |}.
Proof.
  intros Hrest Hlim. unfold scan_page.
  replace (match from with
           | Some k => after k (map_to_list (rows tbl))
           | None => map_to_list (rows tbl)
           end) with rest
    by (destruct from; symmetry; exact Hrest).
  destruct limit as [n|]; [|reflexivity].
  rewrite bool_decide_eq_false_2 by lia. reflexivity.
Qed.

Lemma scan_page_cut (tbl : table_state) (from : option string)
    (n : positive) (rest : list (string * item)) :
  match from with
  | None => map_to_list (rows tbl)
  | Some k => after k (map_to_list (rows tbl))
  end = rest →
  (Pos.to_nat n ≤ length rest)%nat →
  ∃ k it,
    last (take (Pos.to_nat n) rest) = Some (k, it)
    ∧ scan_page tbl from (Some n)
      = {| Item := None; Items := Some (take (Pos.to_nat n) rest).*2;
           LastEvaluatedKey := token_of (hash_key tbl) (Some k); Attributes := None |}.
Proof.
  intros Hrest Hlim. unfold scan_page.
  replace (match from with
           | Some k => after k (map_to_list (rows tbl))
           | None => map_to_list (rows tbl)
           end) with rest
    by (destruct from; symmetry; exact Hrest).
  rewrite bool_decide_eq_true_2 by exact Hlim.
  destruct (last (take (Pos.to_nat n) rest)) as [[k it]|] eqn:Hlast.
  - exists k, it. split; reflexivity.
  - exfalso. apply last_None in Hlast.
    apply (f_equal length) in Hlast. rewrite length_take_le in Hlast by exact Hlim.
    simpl in Hlast. lia.
Qed.

Lemma last_key_nonempty (all done rest : list (string * item)) (k : string) :
  all = done ++ rest →
  (∀ kv, kv ∈ all → kv.1 ≠ "") →
  fst <$> last done = Some k →
  k ≠ "".
Proof.
  intros -> Hkeys Hk.
  destruct (last done) as [[k' it]|] eqn:Hlast; [|discriminate].
  injection Hk as <-.
  apply (Hkeys (k', it)). apply elem_of_app. left.
  by apply last_Some_elem_of.
Qed.

Lemma scan_loop_pages (t : string) (tbl : table_state) (sizes : list positive) :
  ∀ (fuel : nat) (s : env world) (acc : list item)
    (kwargs : gmap string item) (done rest : list (string * item)),
    length sizes < fuel →
    table s = Some {| name := t |} →
    tables (remote s) !! t = Some tbl →
    page_sizes (remote s) = sizes →
    map_to_list (rows tbl) = done ++ rest →
    (∀ kv, kv ∈ map_to_list (rows tbl) → kv.1 ≠ "") →
    (done = [] → kwargs = ∅) →
    kwargs = ∅ ∨ (∃ k0, kwargs = {[ "ExclusiveStartKey" := k0 ]}) →
    ∃ tr s',
      scan_loop serve fuel acc kwargs
        (token_of (hash_key tbl) (fst <$> last done)) s
      = (Returns (acc ++ rest.*2), s')
      ∧ wire s' = wire s ++ tr
      ∧ records s' = records s
      ∧ table s' = table s
      ∧ tables (remote s') = tables (remote s)
      ∧ follows_tokens t (token_of (hash_key tbl) (fst <$> last done)) tr
      ∧ pages tr = rest.*2.
Proof.
  induction sizes as [|n sizes IH];
    intros fuel s acc kwargs done rest Hfuel Ht Hw Hsz Hall Hkeys Hempty Hkw;
    (destruct fuel as [|fuel]; [simpl in Hfuel; lia|]).
  all: set (from := fst <$> last done).
  all: assert (Hfromk : ∀ k, from = Some k → k ≠ "")
         by (intros k; apply (last_key_nonempty _ _ _ k Hall Hkeys)).
  all: assert (Hnone : from = None → kwargs = ∅)
         by (intros Hf; apply Hempty; subst from;
             destruct (last done) eqn:Hl; [discriminate|]; by apply last_None).
  all: pose proof (next_kwargs kwargs tbl from Hnone Hkw) as Hnext.
  all: pose proof (serve_scan (remote s) t tbl from Hw Hfromk) as Hserve.
  all: pose proof (resume_rest _ done rest (NoDup_fst_map_to_list _) Hall)
         as Hres; fold from in Hres.
  all: rewrite <- Hnext, Hsz in Hserve.
  all: rewrite (scan_loop_step serve fuel acc kwargs _ s _ _ _ Ht Hserve).
  all: rewrite Hnext; simpl name.
  all: try change (head (@nil positive)) with (@None positive).
  all: try change (head (n :: sizes)) with (Some n).
  - (* the list of page sizes is used up: one last page with all the rest *)
    rewrite (scan_page_rest tbl from None rest)
      by ((destruct from; exact Hres) || exact I).
    simpl LastEvaluatedKey. cbv iota.
    eexists [_], _. split; [reflexivity|].
    split; [reflexivity|]. split; [reflexivity|]. split; [reflexivity|].
    split; [reflexivity|]. split.
    + simpl. split; [reflexivity|]. eexists. split; reflexivity.
    + unfold pages, page_items. simpl. apply app_nil_r.
  - destruct (decide (Pos.to_nat n ≤ length rest)%nat) as [Hcut|Hshort].
    + (* a full page, with a token *)
      destruct (scan_page_cut tbl from n rest) as (k & it & Hlast & Hpage);
        [destruct from; exact Hres|exact Hcut|].
      rewrite Hpage. simpl LastEvaluatedKey. cbv iota. simpl Items.
      simpl default.
      set (s1 := exchange s _ _ _).
      destruct (IH fuel s1 (acc ++ (take (Pos.to_nat n) rest).*2)
                  (start_kwargs (token_of (hash_key tbl) from))
                  (done ++ take (Pos.to_nat n) rest)
                  (drop (Pos.to_nat n) rest))
        as (tr & s' & Hrun & Hwire & Hrec & Htab & Htabs & Hfol & Hpages).
      { simpl in Hfuel. lia. }
      { exact Ht. }
      { exact Hw. }
      { reflexivity. }
      { by rewrite <- app_assoc, take_drop. }
      { exact Hkeys. }
      { intros Hnil. apply app_eq_nil in Hnil as [_ Hnil].
        rewrite Hnil in Hlast. discriminate. }
      { destruct from; simpl; [right; by eexists|by left]. }
      rewrite last_app, Hlast in Hrun, Hfol. simpl fmap in Hrun, Hfol.
      eexists (_ :: tr), s'. split.
      { replace (acc ++ rest.*2)
          with ((acc ++ (take (Pos.to_nat n) rest).*2)
                ++ (drop (Pos.to_nat n) rest).*2)
          by (by rewrite <- app_assoc, <- fmap_app, take_drop).
        exact Hrun. }
      split; [rewrite Hwire; simpl; by rewrite <- app_assoc|].
      split; [exact Hrec|]. split; [exact Htab|]. split; [exact Htabs|].
      split.
      * simpl. split; [reflexivity|]. eexists. split; [reflexivity|].
        simpl. exact Hfol.
      * change (pages (?x :: tr)) with (page_items x ++ pages tr).
        rewrite Hpages. unfold page_items. simpl.
        by rewrite <- fmap_app, take_drop.
    + (* a last page, shorter than its size *)
      rewrite (scan_page_rest tbl from (Some n) rest)
        by ((destruct from; exact Hres) || lia).
      simpl LastEvaluatedKey. cbv iota.
      eexists [_], _. split; [reflexivity|].
      split; [reflexivity|]. split; [reflexivity|]. split; [reflexivity|].
      split; [reflexivity|]. split.
      * simpl. split; [reflexivity|]. eexists. split; reflexivity.
      * unfold pages, page_items. simpl. apply app_nil_r.
Qed.

Lemma keys_of_rows (tbl : table_state) (l : list (string * item)) :
  (∀ kv, kv ∈ l → key_value (hash_key tbl) kv.2 = Some kv.1) →
  keys_of tbl l.*2 = l.*1.
Proof.
  unfold keys_of. induction l as [|[k it] l IH]; intros Hl; [reflexivity|].
  pose proof (Hl (k, it) ltac:(apply elem_of_cons; by left)) as Hk.
  simpl in *. rewrite Hk. f_equal. apply IH. intros kv Hin. apply Hl. apply elem_of_cons. by right.
Qed.

(** C3.  Against a table whose rows are stored under their
    keys, and however the service cuts the scan into pages, [scan_forums]
    returns as soon as it has enough fuel for one turn per page.  Its
    first request carries no [ExclusiveStartKey]; every reply that has a
    [LastEvaluatedKey] is followed by a request that carries exactly that
    key, and the reply without one is the last exchange; the list it
    returns is the concatenation of the pages.  That list holds the rows
    of the table, each once: as many records as the table has keys, with
    pairwise distinct keys that make up the key set of the table. *)
Theorem scan_forums_returns_every_record (s : env world) (t : string)
    (tbl : table_state) (fuel : nat) :
  table s = Some {| name := t |} →
  tables (remote s) !! t = Some tbl →
  well_keyed tbl →
  length (page_sizes (remote s)) < fuel →
  ∃ forums tr s',
    scan_forums serve fuel s = (Returns forums, s')
    ∧ wire s' = wire s ++ tr
    ∧ records s' = records s
    ∧ follows_tokens t None tr
    ∧ forums = pages tr
    ∧ forums ≡ₚ (map_to_list (rows tbl)).*2
    ∧ length forums = size (rows tbl)
    ∧ NoDup (keys_of tbl forums)
    ∧ list_to_set (keys_of tbl forums) = dom (rows tbl).
Proof.
  intros Ht Hw Hwk Hfuel.
  assert (Hkv : ∀ kv, kv ∈ map_to_list (rows tbl) →
                      key_value (hash_key tbl) kv.2 = Some kv.1).
  { intros [k it] Hin. apply elem_of_map_to_list in Hin. by apply Hwk. }
  destruct (scan_loop_pages t tbl (page_sizes (remote s)) fuel s [] ∅ []
              (map_to_list (rows tbl)))
    as (tr & s' & Hrun & Hwire & Hrec & _ & _ & Hfol & Hpages);
    try done.
  { intros kv Hin. eapply key_value_nonempty. by apply Hkv. }
  { by left. }
  simpl in Hrun, Hfol.
  exists (map_to_list (rows tbl)).*2, tr, s'.
  split.
  { unfold scan_forums, try_except_else. by rewrite Hrun. }
  split; [exact Hwire|]. split; [exact Hrec|]. split; [exact Hfol|].
  split; [by rewrite Hpages|]. split; [reflexivity|].
  split; [by rewrite length_fmap, length_map_to_list|].
  rewrite (keys_of_rows tbl _ Hkv).
  split; [apply NoDup_fst_map_to_list|].
  apply leibniz_equiv. symmetry. apply dom_alt.
Qed.

End Scanning.

(** ** The store files every item under its key *)

Section Invariant.

Import DynamoDB.

Lemma well_keyed_set_rows (w : world) (t : string) (tbl : table_state)
    (rows' : gmap string item) :
  (∀ k it, rows' !! k = Some it → key_value (hash_key tbl) it = Some k) →
  well_keyed_world w →
  well_keyed_world (set_rows w t tbl rows').
Proof.
  intros Hrows Hw t' tbl' Ht'. unfold set_rows in Ht'. simpl in Ht'.
  apply lookup_insert_Some in Ht' as [[_ <-]|[_ Ht']].
  - exact Hrows.
  - exact (Hw t' tbl' Ht').
Qed.

Lemma put_all_keyed (hk : string) (its : list item)
    (rows0 rows' : gmap string item) :
  (∀ k it, rows0 !! k = Some it → key_value hk it = Some k) →
  put_all hk its rows0 = Some rows' →
  ∀ k it, rows' !! k = Some it → key_value hk it = Some k.
Proof.
  unfold put_all. revert rows0.
  induction its as [|x its IH]; intros rows0 H0 Hput.
  - simpl in Hput. by injection Hput as <-.
  - simpl in Hput. destruct (key_value hk x) as [kx|] eqn:Hx.
    + simpl in Hput. apply (IH (<[kx := x]> rows0)); [|exact Hput].
      intros k it Hk. apply lookup_insert_Some in Hk as [[<- <-]|[_ Hk]].
      * exact Hx.
      * exact (H0 k it Hk).
    + simpl in Hput. exfalso. clear -Hput.
      induction its as [|y its IH]; [discriminate|]. exact (IH Hput).
Qed.

Lemma assign_lookup_other (it : item) (sets : list (string * value))
    (a : string) :
  a ∉ sets.*1 → assign it sets !! a = it !! a.
Proof.
  unfold assign. revert it.
  induction sets as [|[b v] sets IH]; intros it Ha; [reflexivity|].
  simpl. simpl in Ha. apply not_elem_of_cons in Ha as [Hab Ha].
  rewrite (IH _ Ha). by apply lookup_insert_ne.
Qed.

Lemma key_of_Key_value (hk : string) (Key : item) (k : string) :
  key_of_Key hk Key = Some k → key_value hk Key = Some k.
Proof. unfold key_of_Key. by destruct (decide (size Key = 1%nat)). Qed.

(** Whatever the request, the service keeps every row of every table
    under the row's own key. *)
Lemma serve_well_keyed (r : request) (w : world) :
  well_keyed_world w → well_keyed_world (serve r w).2.
Proof.
  intros Hw.
  destruct r as [t|t ks ad rcu wcu|t|t its|t Key|t kwargs|t it
                |t Key e values names mode|t Key|t]; simpl.
  all: destruct (tables w !! t) as [tbl|] eqn:Ht; simpl; try exact Hw.
  - (* CreateTable *)
    repeat case_match; try exact Hw; simpl;
      intros t' tbl' Ht'; simpl in Ht';
      apply lookup_insert_Some in Ht' as [[_ <-]|[_ Ht']];
      [intros k it Hk; simpl in Hk; by rewrite lookup_empty in Hk
      |exact (Hw t' tbl' Ht')].
  - (* BatchWriteItem *)
    destruct (put_all (hash_key tbl) its (rows tbl)) as [rows'|] eqn:Hput;
      [|exact Hw].
    apply well_keyed_set_rows; [|exact Hw].
    exact (put_all_keyed _ _ _ _ (Hw t tbl Ht) Hput).
  - (* GetItem *)
    by case_match.
  - (* Scan *)
    repeat case_match; exact Hw.
  - (* PutItem *)
    destruct (key_value (hash_key tbl) it) as [k|] eqn:Hk; [|exact Hw].
    apply well_keyed_set_rows; [|exact Hw].
    intros k' it' Hk'. apply lookup_insert_Some in Hk' as [[<- <-]|[_ Hk']].
    + exact Hk.
    + exact (Hw t tbl Ht k' it' Hk').
  - (* UpdateItem *)
    destruct (key_of_Key (hash_key tbl) Key) as [k|] eqn:Hk; [|exact Hw].
    destruct (parse_update_expression e
              ≫= mapM (resolve_assignment names values)) as [sets|];
      [|exact Hw].
    destruct (decide (hash_key tbl ∈ sets.*1)) as [|Hnot]; [exact Hw|].
    cbv zeta.
    destruct (return_values mode (rows tbl !! k)
                (assign (default Key (rows tbl !! k)) sets) sets);
      [|exact Hw].
    apply well_keyed_set_rows; [|exact Hw].
    intros k' it' Hk'. apply lookup_insert_Some in Hk' as [[<- <-]|[_ Hk']].
    + unfold key_value. rewrite (assign_lookup_other _ _ _ Hnot).
      destruct (rows tbl !! k) as [old|] eqn:Hold; simpl.
      * exact (Hw t tbl Ht k old Hold).
      * exact (key_of_Key_value _ _ _ Hk).
    + exact (Hw t tbl Ht k' it' Hk').
  - (* DeleteItem *)
    destruct (key_of_Key (hash_key tbl) Key) as [k|]; [|exact Hw].
    apply well_keyed_set_rows; [|exact Hw].
    intros k' it' Hk'. apply lookup_delete_Some in Hk' as [_ Hk'].
    exact (Hw t tbl Ht k' it' Hk').
  - (* DeleteTable *)
    intros t' tbl' Ht'. simpl in Ht'.
    apply lookup_delete_Some in Ht' as [_ Ht']. exact (Hw t' tbl' Ht').
Qed.

End Invariant.

(** ** Decoding a file of samples *)

Section Decoding.

Import Json Sample.

Lemma append_cons (c : ascii) (s r : string) :
  String c s +:+ r = String c (s +:+ r).
Proof. reflexivity. Qed.

Lemma append_empty (r : string) : EmptyString +:+ r = r.
Proof. reflexivity. Qed.

Lemma scan_string_plain (s rest : string) :
  plain s = true →
  scan_string (s +:+ String dquote rest) = Some (s, rest).
Proof.
  unfold dquote.
  induction s as [|c s IH]; intros Hp.
  - reflexivity.
  - cbn [plain] in Hp. unfold dquote in Hp. apply andb_prop in Hp as [Hp Hs].
    apply andb_prop in Hp as [Hp Hc]. apply andb_prop in Hp as [Hq Hb].
    apply negb_true_iff in Hq, Hb, Hc.
    rewrite append_cons. cbn [scan_string]. unfold dquote.
    rewrite Hq, Hb, Hc, (IH Hs). reflexivity.
Qed.

Lemma scan_uint_digits (d : Decimal.uint) (rest : string) :
  no_digit rest →
  scan_uint (NilEmpty.string_of_uint d +:+ rest) = (d, rest).
Proof.
  intros Hrest.
  induction d; cbn [NilEmpty.string_of_uint];
    rewrite ?append_cons, ?append_empty; cbn [scan_uint digit_of];
    try (rewrite IHd; reflexivity).
  destruct rest as [|c r]; [reflexivity|].
  simpl in Hrest. cbn [scan_uint]. rewrite Hrest. reflexivity.
Qed.

(** The digits of a positive number start with none of [0]. *)
Lemma nzhead_not_D0 (d d' : Decimal.uint) : Decimal.nzhead d ≠ Decimal.D0 d'.
Proof. induction d; simpl; try discriminate. exact IHd. Qed.

Lemma to_uint_well_headed (p : positive) : well_headed (Pos.to_uint p).
Proof.
  pose proof (Unsigned.to_of (Pos.to_uint p)) as H.
  rewrite Unsigned.of_to in H. simpl in H.
  pose proof (Unsigned.to_uint_nonnil p) as Hnil.
  pose proof (Unsigned.to_uint_nonzero p) as Hzero.
  destruct (Pos.to_uint p) as [|u| | | | | | | | |]; try exact I; [done|].
  unfold Decimal.unorm in H. simpl in H.
  destruct (Decimal.nzhead u) eqn:Hu.
  all: try (symmetry in H; rewrite <- Hu in H; by apply nzhead_not_D0 in H).
  done.
Qed.

Lemma scan_number_digits (negative : bool) (d : Decimal.uint) (rest : string) :
  well_headed d →
  ends_number rest →
  scan_number ((if negative then "-" else EmptyString)
               +:+ NilEmpty.string_of_uint d +:+ rest)
  = Some (parse_int negative d, rest).
Proof.
  intros Hd Hrest. unfold scan_number.
  assert (Hnd : no_digit rest).
  { destruct rest; [exact I|]. simpl. by destruct Hrest. }
  assert (Hint : scan_integer (NilEmpty.string_of_uint d +:+ rest) = Some (d, rest)).
  { unfold scan_integer. rewrite (scan_uint_digits d rest Hnd).
    destruct d as [|u| | | | | | | | |]; try reflexivity; [done|].
    destruct u; try reflexivity; done. }
  assert (Hfrac : scan_fraction rest = (None, rest)).
  { destruct rest as [|c r]; [reflexivity|].
    destruct Hrest as (_ & Hdot & _). unfold scan_fraction.
    destruct (Ascii.eqb_spec c "."); [done|].
    destruct c as [[] [] [] [] [] [] [] []]; try reflexivity. done. }
  assert (Hexp : scan_exponent rest = (None, rest)).
  { destruct rest as [|c r]; [reflexivity|].
    destruct Hrest as (_ & _ & He & HE). unfold scan_exponent.
    destruct (Ascii.eqb_spec c "e"); [done|].
    destruct (Ascii.eqb_spec c "E"); [done|]. reflexivity. }
  destruct negative.
  - rewrite append_cons, append_empty. rewrite Hint. simpl.
    rewrite Hfrac, Hexp. reflexivity.
  - rewrite append_empty.
    replace (match NilEmpty.string_of_uint d +:+ rest with
             | String "-"%char r => (true, r)
             | _ => (false, NilEmpty.string_of_uint d +:+ rest)
             end) with (false, NilEmpty.string_of_uint d +:+ rest)
      by (destruct d; try reflexivity; done).
    rewrite Hint. simpl. rewrite Hfrac, Hexp. reflexivity.
Qed.

Lemma of_uint_to_uint (p : positive) : Z.of_uint (Pos.to_uint p) = Z.pos p.
Proof. unfold Z.of_uint. by rewrite Unsigned.of_to. Qed.

Lemma scan_number_int (z : Z) (rest : string) :
  ends_number rest →
  scan_number (put_int z rest) = Some (JInt z, rest).
Proof.
  intros Hrest. unfold put_int. destruct z as [|p|p]; simpl Z.to_int.
  - apply (scan_number_digits false (Decimal.D0 Decimal.Nil) rest I Hrest).
  - pose proof (to_uint_well_headed p) as Hp.
    pose proof (scan_number_digits false _ rest Hp Hrest) as H.
    cbv iota in H. rewrite append_empty in H.
    replace (NilZero.string_of_int (Decimal.Pos (Pos.to_uint p)))
      with (NilEmpty.string_of_uint (Pos.to_uint p))
      by (unfold NilZero.string_of_int, NilZero.string_of_uint;
          destruct (Pos.to_uint p); done).
    rewrite H. unfold parse_int. by rewrite of_uint_to_uint.
  - pose proof (to_uint_well_headed p) as Hp.
    pose proof (scan_number_digits true _ rest Hp Hrest) as H.
    cbv iota in H. rewrite append_cons, append_empty in H.
    replace (NilZero.string_of_int (Decimal.Neg (Pos.to_uint p)) +:+ rest)
      with (String "-" (NilEmpty.string_of_uint (Pos.to_uint p) +:+ rest))
      by (unfold NilZero.string_of_int, NilZero.string_of_uint;
          destruct (Pos.to_uint p); done).
    rewrite H. unfold parse_int. by rewrite of_uint_to_uint.
Qed.

Lemma scan_value_string (fuel : nat) (s rest : string) :
  plain s = true →
  scan_value (S fuel) (put_string s rest) = Some (JStr s, rest).
Proof.
  intros Hs. unfold put_string. cbn [scan_value].
  rewrite Ascii.eqb_refl, (scan_string_plain s rest Hs). reflexivity.
Qed.

(** A number does not start like a string, an object, an array or a
    constant, so the decoder takes it for a number. *)
Lemma scan_value_digits (fuel : nat) (negative : bool) (d : Decimal.uint)
    (rest : string) :
  d ≠ Decimal.Nil →
  scan_value (S fuel) ((if negative then "-" else EmptyString)
                       +:+ NilEmpty.string_of_uint d +:+ rest)
  = scan_number ((if negative then "-" else EmptyString)
                 +:+ NilEmpty.string_of_uint d +:+ rest).
Proof.
  intros Hd. destruct negative; destruct d; try done; reflexivity.
Qed.

Lemma scan_value_int (fuel : nat) (z : Z) (rest : string) :
  ends_number rest →
  scan_value (S fuel) (put_int z rest) = Some (JInt z, rest).
Proof.
  intros Hrest. rewrite <- (scan_number_int z rest Hrest).
  unfold put_int. destruct z as [|p|p]; simpl Z.to_int.
  - reflexivity.
  - pose proof (to_uint_well_headed p) as Hp.
    replace (NilZero.string_of_int (Decimal.Pos (Pos.to_uint p)))
      with (NilEmpty.string_of_uint (Pos.to_uint p))
      by (unfold NilZero.string_of_int, NilZero.string_of_uint;
          destruct (Pos.to_uint p); done).
    apply (scan_value_digits fuel false). by destruct (Pos.to_uint p).
  - pose proof (to_uint_well_headed p) as Hp.
    replace (NilZero.string_of_int (Decimal.Neg (Pos.to_uint p)) +:+ rest)
      with ("-" +:+ NilEmpty.string_of_uint (Pos.to_uint p) +:+ rest)
      by (unfold NilZero.string_of_int, NilZero.string_of_uint;
          destruct (Pos.to_uint p); done).
    apply (scan_value_digits fuel true). by destruct (Pos.to_uint p).
Qed.

Lemma skip_ws_string (s k : string) : skip_ws (put_string s k) = put_string s k.
Proof. reflexivity. Qed.

Lemma skip_ws_int (z : Z) (k : string) : skip_ws (put_int z k) = put_int z k.
Proof.
  unfold put_int. destruct z as [|p|p]; simpl Z.to_int; try reflexivity.
  pose proof (Unsigned.to_uint_nonnil p) as Hp.
  unfold NilZero.string_of_int, NilZero.string_of_uint.
  destruct (Pos.to_uint p); try done; reflexivity.
Qed.

Lemma scan_members_step (fuel : nat) (acc : list (string * json))
    (key after_key : string) :
  plain key = true →
  scan_members (S fuel) acc (put_string key (": " +:+ after_key))
  = '(v, r3) ← scan_value fuel (skip_ws after_key);
    match skip_ws r3 with
    | String ","%char r4 => scan_members fuel (dict_set acc key v) (skip_ws r4)
    | String "}"%char r4 => Some (JDict (dict_set acc key v), r4)
    | _ => None
    end.
Proof.
  intros Hk. unfold put_string. cbn [scan_members].
  rewrite Ascii.eqb_refl, (scan_string_plain key _ Hk). reflexivity.
Qed.

Lemma scan_members_more (fuel : nat) (acc : list (string * json))
    (key : string) (vtext : string → string) (v : json) (key' rest : string) :
  plain key = true →
  skip_ws (vtext (", " +:+ put_string key' rest))
  = vtext (", " +:+ put_string key' rest) →
  scan_value fuel (vtext (", " +:+ put_string key' rest))
  = Some (v, ", " +:+ put_string key' rest) →
  scan_members (S fuel) acc
    (put_string key (": " +:+ vtext (", " +:+ put_string key' rest)))
  = scan_members fuel (dict_set acc key v) (put_string key' rest).
Proof.
  intros Hk Hskip Hval. rewrite (scan_members_step _ _ _ _ Hk), Hskip, Hval.
  reflexivity.
Qed.

Lemma scan_members_last (fuel : nat) (acc : list (string * json))
    (key : string) (vtext : string → string) (v : json) (k : string) :
  plain key = true →
  skip_ws (vtext ("}" +:+ k)) = vtext ("}" +:+ k) →
  scan_value fuel (vtext ("}" +:+ k)) = Some (v, "}" +:+ k) →
  scan_members (S fuel) acc (put_string key (": " +:+ vtext ("}" +:+ k)))
  = Some (JDict (dict_set acc key v), k).
Proof.
  intros Hk Hskip Hval. rewrite (scan_members_step _ _ _ _ Hk), Hskip, Hval.
  reflexivity.
Qed.

Lemma scan_value_object (fuel : nat) (key rest : string) :
  scan_value (S fuel) ("{" +:+ put_string key rest)
  = scan_members fuel [] (put_string key rest).
Proof. reflexivity. Qed.

Lemma ends_number_comma (rest : string) : ends_number (", " +:+ rest).
Proof. repeat split; discriminate. Qed.

Lemma ends_number_brace (rest : string) : ends_number ("}" +:+ rest).
Proof. repeat split; discriminate. Qed.

Lemma scan_value_forum (fuel : nat) (r : sample) (k : string) :
  plain (sample_name r) = true →
  plain (sample_category r) = true →
  scan_value (7 + fuel) (put_forum r k) = Some (decoded r, k).
Proof.
  intros Hn Hc. unfold put_forum.
  change (7 + fuel) with (S (S (S (S (S (S (S fuel))))))).
  rewrite scan_value_object.
  rewrite (scan_members_more _ _ "Name" (put_string (sample_name r))
             (JStr (sample_name r)));
    [|reflexivity|reflexivity|by apply scan_value_string].
  rewrite (scan_members_more _ _ "Category" (put_string (sample_category r))
             (JStr (sample_category r)));
    [|reflexivity|reflexivity|by apply scan_value_string].
  rewrite (scan_members_more _ _ "Messages" (put_int (sample_messages r))
             (JInt (sample_messages r)));
    [|reflexivity|apply skip_ws_int
     |apply scan_value_int, ends_number_comma].
  rewrite (scan_members_more _ _ "Threads" (put_int (sample_threads r))
             (JInt (sample_threads r)));
    [|reflexivity|apply skip_ws_int
     |apply scan_value_int, ends_number_comma].
  rewrite (scan_members_last _ _ "Views" (put_int (sample_views r))
             (JInt (sample_views r)));
    [|reflexivity|apply skip_ws_int
     |apply scan_value_int, ends_number_brace].
  reflexivity.
Qed.

Lemma length_append (a b : string) :
  String.length (a +:+ b) = String.length a + String.length b.
Proof. induction a as [|c a IH]; [reflexivity|]. simpl. by rewrite IH. Qed.

Lemma length_put_string (s k : string) :
  String.length (put_string s k) = 2 + String.length s + String.length k.
Proof. unfold put_string. simpl. rewrite length_append. simpl. lia. Qed.

Lemma length_put_int (z : Z) (k : string) :
  (String.length k ≤ String.length (put_int z k))%nat.
Proof. unfold put_int. rewrite length_append. lia. Qed.

Lemma length_put_forum (r : sample) (k : string) :
  (8 + String.length k ≤ String.length (put_forum r k))%nat.
Proof.
  unfold put_forum.
  repeat (rewrite length_append || rewrite length_put_string).
  pose proof (length_put_int (sample_messages r)
    (", " +:+ put_string "Threads" (": " +:+ put_int (sample_threads r)
      (", " +:+ put_string "Views" (": " +:+ put_int (sample_views r)
        ("}" +:+ k)))))) as H1.
  pose proof (length_put_int (sample_threads r)
    (", " +:+ put_string "Views" (": " +:+ put_int (sample_views r)
      ("}" +:+ k)))) as H2.
  pose proof (length_put_int (sample_views r) ("}" +:+ k)) as H3.
  repeat (rewrite length_append in H1 || rewrite length_put_string in H1).
  repeat (rewrite length_append in H2 || rewrite length_put_string in H2).
  repeat (rewrite length_append in H3 || rewrite length_put_string in H3).
  lia.
Qed.

Lemma length_put_elements (rs : list sample) (r : sample) (k : string) :
  (9 + length rs ≤ String.length (put_elements r rs k))%nat.
Proof.
  revert r. induction rs as [|r' rs IH]; intros r; cbn [put_elements].
  - pose proof (length_put_forum r ("]" +:+ k)) as H.
    rewrite length_append in H. simpl in H. simpl. lia.
  - pose proof (length_put_forum r (", " +:+ put_elements r' rs k)) as H.
    rewrite length_append in H. specialize (IH r'). simpl in H. simpl. lia.
Qed.

Lemma scan_elements_step (fuel : nat) (acc : list json) (r : sample)
    (rest : string) :
  unescaped r = true →
  scan_elements (8 + fuel) acc (put_forum r rest)
  = match skip_ws rest with
    | String ","%char r' =>
        scan_elements (7 + fuel) (acc ++ [decoded r]) (skip_ws r')
    | String "]"%char r' => Some (JList (acc ++ [decoded r]), r')
    | _ => None
    end.
Proof.
  intros Hr. apply andb_prop in Hr as [Hn Hc].
  change (8 + fuel) with (S (7 + fuel)). cbn [scan_elements].
  rewrite (scan_value_forum fuel r rest Hn Hc). reflexivity.
Qed.

Lemma skip_ws_elements (r : sample) (rs : list sample) (k : string) :
  skip_ws (put_elements r rs k) = put_elements r rs k.
Proof. by destruct rs. Qed.

Lemma scan_elements_forums (rs : list sample) (r : sample) (acc : list json)
    (fuel : nat) (k : string) :
  Forall (λ r, unescaped r = true) (r :: rs) →
  scan_elements (8 + length rs + fuel) acc (put_elements r rs k)
  = Some (JList (acc ++ (decoded <$> r :: rs)), k).
Proof.
  revert r acc. induction rs as [|r' rs IH]; intros r acc Hall;
    apply Forall_cons in Hall as [Hr Hrs]; cbn [put_elements].
  - change (8 + length (@nil sample) + fuel) with (8 + fuel).
    rewrite (scan_elements_step fuel acc r _ Hr). reflexivity.
  - change (8 + length (r' :: rs) + fuel) with (8 + (S (length rs + fuel))).
    rewrite (scan_elements_step _ acc r _ Hr).
    change (skip_ws (", " +:+ put_elements r' rs k))
      with (", " +:+ put_elements r' rs k).
    change (", " +:+ put_elements r' rs k)
      with (String "," (String " " (put_elements r' rs k))).
    cbv iota.
    change (skip_ws (String " " (put_elements r' rs k)))
      with (skip_ws (put_elements r' rs k)).
    rewrite skip_ws_elements.
    change (7 + S (length rs + fuel)) with (8 + length rs + fuel).
    rewrite (IH r' (acc ++ [decoded r]) Hrs).
    by rewrite <- app_assoc.
Qed.

Lemma scan_value_array (fuel : nat) (r : sample) (rs : list sample)
    (k : string) :
  scan_value (S fuel) ("[" +:+ put_elements r rs k)
  = scan_elements fuel [] (put_elements r rs k).
Proof. by destruct rs. Qed.

Lemma scan_value_forums (fuel : nat) (rs : list sample) (k : string) :
  Forall (λ r, unescaped r = true) rs →
  scan_value (9 + length rs + fuel) (put_forums rs k)
  = Some (JList (decoded <$> rs), k).
Proof.
  intros Hall. destruct rs as [|r rs]; [reflexivity|].
  unfold put_forums.
  replace (9 + length (r :: rs) + fuel) with (S (8 + length rs + S fuel))
    by (simpl; lia).
  rewrite scan_value_array.
  apply (scan_elements_forums rs r [] (S fuel) k Hall).
Qed.

(** The decoder reads a file of samples back, whatever their number. *)
Lemma loads_text (rs : list sample) :
  Forall (λ r, unescaped r = true) rs →
  loads (text rs) = Some (JList (decoded <$> rs)).
Proof.
  intros Hall. destruct rs as [|r rs]; [reflexivity|].
  unfold loads.
  replace (skip_ws (text (r :: rs))) with (text (r :: rs)) by (by destruct rs).
  assert (Hlen : (9 + length (r :: rs) ≤ S (String.length (text (r :: rs))))%nat).
  { pose proof (length_put_elements rs r EmptyString) as H.
    unfold text, put_forums. rewrite length_append. simpl. simpl in H. lia. }
  replace (S (String.length (text (r :: rs))))
    with (9 + length (r :: rs)
          + (S (String.length (text (r :: rs))) - 9 - length (r :: rs)))
    by lia.
  unfold text. rewrite (scan_value_forums _ (r :: rs) EmptyString Hall).
  reflexivity.
Qed.

End Decoding.

Section Loading.

Context {W : Type}.

Import Json Sample.

(** A missing file is reported on the standard output and the error goes
    on to the caller. *)
Lemma get_sample_forum_data_missing (path : string) (s : env W) :
  files s !! path = None →
  ∃ s',
    get_sample_forum_data path s = (Raises (FileNotFoundError path), s') ∧
    stdout s' = stdout s ++ ["File " +:+ path +:+
      " not found. You must first download the file to run this demo..."].
Proof.
  intros Hf. unfold get_sample_forum_data, open. rewrite Hf.
  eexists. split; reflexivity.
Qed.

(** Numbers with a fraction or an exponent go through [Decimal], digit
    for digit; the constants of [float] are the only floats. *)
Example loads_fraction :
  loads (dq "[0.1, -12.50, 1E400, 3, NaN]")
  = Some (JList [JDecimal 1 (-1); JDecimal (-1250) (-2); JDecimal 1 400;
                 JInt 3; JFloatConstant "NaN"]).
Proof. vm_compute. reflexivity. Qed.


End Loading.

(** ** The demo

    The theorems above at the states the demo goes through, and what the
    demo shows of the methods where they do not behave as one may expect. *)

Section Demo.

Import DynamoDB.

Lemma demo_env_bound (sizes : list positive) :
  bound_to (demo_env sizes) "Forum" demo_rows.
Proof. split; [reflexivity|]. vm_compute. reflexivity. Qed.

Lemma demo_table_well_keyed : well_keyed demo_table.
Proof.
  change (map_Forall (λ k it, key_value "Name" it = Some k) demo_rows).
  compute_done.
Qed.


(** [get_forum] of a forum the demo's table does not hold. *)
Lemma get_forum_missing_key_demo :
  get_forum serve "Amazon S3" (demo_env [])
  = (Raises (KeyError "Item"),
     exchange (demo_env []) (GetItem "Forum" {[ "Name" := VStr "Amazon S3" ]})
       (Ok empty_response) (remote (demo_env []))).
Proof.
  apply (get_forum_missing_key (demo_env []) "Forum" demo_rows "Amazon S3").
  - apply demo_env_bound.
  - discriminate.
  - vm_compute. reflexivity.
Defined.

(** The demo's [get_forum] of a missing forum returns no value at all. *)
Lemma get_forum_missing_key_raises :
  (get_forum serve "Amazon S3" (demo_env [])).1 = Raises (KeyError "Item")
  ∧ records (get_forum serve "Amazon S3" (demo_env [])).2
    = records (demo_env []).
Proof. split; vm_compute; reflexivity. Qed.

(** [delete_forum], [get_forum] and [delete_forum] again in the demo. *)
Lemma delete_forum_then_get_forum_demo :
  let '(o1, s1) := delete_forum serve "SQL server" (demo_env []) in
  let '(o2, s2) := get_forum serve "SQL server" s1 in
  let '(o3, s3) := delete_forum serve "SQL server" s2 in
  o1 = Returns tt
  ∧ bound_to s1 "Forum" (delete "SQL server" demo_rows)
  ∧ o2 = Raises (KeyError "Item")
  ∧ o3 = Returns tt
  ∧ bound_to s3 "Forum" (delete "SQL server" demo_rows)
  ∧ records s3 = records (demo_env []).
Proof.
  apply (delete_forum_then_get_forum (demo_env []) "Forum" demo_rows
           "SQL server").
  - apply demo_env_bound.
  - discriminate.
Defined.

(** After the demo's [delete_forum], [get_forum] of the forum raises. *)
Lemma get_forum_after_delete_forum_raises :
  (get_forum serve "SQL server"
     (delete_forum serve "SQL server" (demo_env [])).2).1
  = Raises (KeyError "Item").
Proof. vm_compute. reflexivity. Qed.




(** The scan of the demo, when the service gives one forum a page. *)
Lemma scan_forums_returns_every_record_demo :
  ∃ forums tr s',
    scan_forums serve 5 (demo_env [1%positive]) = (Returns forums, s')
    ∧ wire s' = wire (demo_env [1%positive]) ++ tr
    ∧ records s' = records (demo_env [1%positive])
    ∧ follows_tokens "Forum" None tr
    ∧ forums = pages tr
    ∧ forums ≡ₚ (map_to_list (rows demo_table)).*2
    ∧ length forums = size (rows demo_table)
    ∧ NoDup (keys_of demo_table forums)
    ∧ list_to_set (keys_of demo_table forums) = dom (rows demo_table).
Proof.
  apply (scan_forums_returns_every_record (demo_env [1%positive]) "Forum"
           demo_table 5).
  - reflexivity.
  - vm_compute. reflexivity.
  - apply demo_table_well_keyed.
  - simpl. lia.
Defined.

(** The demo's [delete_table]. *)
Lemma delete_table_clears_handle_demo :
  let '(rep, w') := serve (DeleteTable "Forum") (remote (demo_env [])) in
  let '(o, s') := delete_table serve (demo_env []) in
  wire s' = wire (demo_env []) ++ [(DeleteTable "Forum", rep)]
  ∧ remote s' = w'
  ∧ match rep with
    | Ok _ =>
        o = Returns tt ∧ table s' = None ∧ records s' = records (demo_env [])
    | Fault Code Message =>
        o = Raises (ClientError Code Message)
        ∧ table s' = Some {| name := "Forum" |}
        ∧ records s'
          = records (demo_env [])
            ++ [error_record "Couldn't delete table. Here's why: %s: %s"
                  [Code; Message]]
    end.
Proof.
  apply (delete_table_clears_handle serve (demo_env []) {| name := "Forum" |}).
  reflexivity.
Defined.

(** The first call of the demo: no table yet, [exists] returns [False]
    and stores no handle. *)
Lemma exists_not_found_caches_nothing :
  (exists_ serve "Forum" (Forum_init empty_world ∅)).1 = Returns false
  ∧ table (exists_ serve "Forum" (Forum_init empty_world ∅)).2 = None.
Proof. split; reflexivity. Qed.



(** The view count 1000000000000 of the sample file comes back as that
    integer. *)
Example get_sample_forum_data_views :
  (get_sample_forum_data "./sampledata/Forum.json" sample_env).1
  = Returns (JList
      [JDict [("Name", JStr "Amazon DynamoDB");
              ("Category", JStr "Amazon Web Services");
              ("Messages", JInt 2); ("Threads", JInt 4);
              ("Views", JInt 1000000000000)];
       JDict [("Name", JStr "Amazon S3");
              ("Category", JStr "Amazon Web Services");
              ("Messages", JInt 0); ("Threads", JInt 0);
              ("Views", JInt (-1))]]).
Proof. vm_compute. reflexivity. Qed.

End Demo.

(** * Further properties of the methods *)

(** ** The handle on the table *)

Section Handles.

Context {W : Type}.
Variable serve : request → W → reply * W.


(** Without a handle, that is before [exists] found the table or
    [create_table] made it, every method that works on the table fails
    with [AttributeError] on [self.table]: nothing is sent to the
    service, nothing is logged, and the facade is left as it was.  The
    error is not a [ClientError], so no handler of the class sees it. *)
Theorem methods_need_a_handle (s : env W) :
  table s = None →
  (∀ forums, write_batch serve forums s
             = (Raises (AttributeError "batch_writer"), s))
  ∧ (∀ n, get_forum serve n s = (Raises (AttributeError "get_item"), s))
  ∧ (∀ fuel, scan_forums serve (S fuel) s
             = (Raises (AttributeError "scan"), s))
  ∧ (∀ n c m th v, add_forum serve n c m th v s
                   = (Raises (AttributeError "put_item"), s))
  ∧ (∀ n c m th v, update_forum serve n c m th v s
                   = (Raises (AttributeError "update_item"), s))
  ∧ (∀ n, delete_forum serve n s
          = (Raises (AttributeError "delete_item"), s))
  ∧ delete_table serve s = (Raises (AttributeError "delete"), s).
Proof.
  intros Ht.
  repeat split; intros;
    unfold write_batch, get_forum, scan_forums, add_forum, update_forum,
      delete_forum, delete_table, try_except_else, scan_loop,
      mbind, M_bind, bind, self_table;
    rewrite Ht; reflexivity.
Qed.

(** A [delete_table] that returns had a handle, sent one [DeleteTable]
    for its table, which the service accepted, and left no handle: a
    second [delete_table], like every other method on the table, then
    fails with [AttributeError] and sends nothing. *)
Theorem delete_table_once (s s' : env W) :
  delete_table serve s = (Returns tt, s') →
  (∃ h resp,
     table s = Some h
     ∧ wire s' = wire s ++ [(DeleteTable (name h), Ok resp)])
  ∧ table s' = None
  ∧ records s' = records s
  ∧ delete_table serve s' = (Raises (AttributeError "delete"), s')
  ∧ ∀ n, get_forum serve n s' = (Raises (AttributeError "get_item"), s').
Proof.
  intros Hrun.
  destruct (table s) as [h|] eqn:Ht.
  2:{ unfold delete_table, try_except_else, mbind, M_bind, bind, self_table
        in Hrun. rewrite Ht in Hrun. discriminate. }
  rewrite (delete_table_run serve s h Ht) in Hrun.
  destruct (serve (DeleteTable (name h)) (remote s)) as [[resp|c m] w'];
    [|discriminate].
  injection Hrun as <-.
  assert (Hnone : table (with_table (exchange s (DeleteTable (name h))
                                       (Ok resp) w') None) = None)
    by reflexivity.
  split; [by exists h, resp|].
  split; [reflexivity|]. split; [reflexivity|].
  split.
  - unfold delete_table, try_except_else, mbind, M_bind, bind, self_table.
    rewrite Hnone. reflexivity.
  - intros n.
    unfold get_forum, try_except_else, mbind, M_bind, bind, self_table.
    rewrite Hnone. reflexivity.
Qed.


End Handles.

(** ** The loop of [scan_forums], against any service *)

Section Protocol.

Context {W : Type}.
Variable serve : request → W → reply * W.

Lemma kwargs_of_token (kwargs : gmap string item) (start : option item) :
  (start = None → kwargs = ∅) →
  kwargs = ∅ ∨ (∃ k0, kwargs = {[ "ExclusiveStartKey" := k0 ]}) →
  start ≠ Some ∅ →
  match start with
  | Some k =>
      if truthy start then <["ExclusiveStartKey" := k]> kwargs else kwargs
  | None => kwargs
  end = start_kwargs start.
Proof.
  intros Hnone Hkw Hne. destruct start as [k|]; simpl.
  - rewrite bool_decide_eq_true_2 by (intros ->; done).
    destruct Hkw as [->|[k0 ->]]; [apply insert_empty|apply insert_singleton_eq].
  - by apply Hnone.
Qed.

(** What a loop that returns has sent and gathered. *)
Lemma scan_loop_returns (fuel : nat) :
  ∀ (acc : list item) (kwargs : gmap string item) (start : option item)
    (s s' : env W) (forums : list item),
    scan_loop serve fuel acc kwargs start s = (Returns forums, s') →
    ∃ tr,
      wire s' = wire s ++ tr
      ∧ forums = acc ++ pages tr
      ∧ records s' = records s
      ∧ table s' = table s
      ∧ ∃ req resp, last tr = Some (req, Ok resp)
                    ∧ LastEvaluatedKey resp = None.
Proof.
  induction fuel as [|fuel IH]; intros acc kwargs start s s' forums Hrun;
    [discriminate|].
  destruct (table s) as [h|] eqn:Ht.
  2:{ simpl in Hrun. unfold mbind, M_bind, bind, self_table in Hrun.
      rewrite Ht in Hrun. discriminate. }
  set (kw := match start with
             | Some k =>
                 if truthy start then <["ExclusiveStartKey" := k]> kwargs
                 else kwargs
             | None => kwargs
             end).
  destruct (serve (Scan (name h) kw) (remote s)) as [[resp|c m] w'] eqn:Hs.
  2:{ simpl in Hrun. unfold mbind, M_bind, bind, self_table, call in Hrun.
      rewrite Ht in Hrun. simpl in Hrun. fold kw in Hrun. rewrite Hs in Hrun.
      discriminate. }
  rewrite (scan_loop_step serve fuel acc kwargs start s h resp w' Ht Hs)
    in Hrun.
  fold kw in Hrun.
  destruct (LastEvaluatedKey resp) as [k|] eqn:Hk.
  - apply IH in Hrun as (tr & Hw & Hf & Hr & Htb & req & resp' & Hl & Hn).
    exists ((Scan (name h) kw, Ok resp) :: tr).
    split; [rewrite Hw; simpl; by rewrite <- app_assoc|].
    split.
    { rewrite Hf. unfold pages. simpl. unfold page_items at 2. simpl.
      by rewrite app_assoc. }
    split; [exact Hr|]. split; [by rewrite Htb|].
    exists req, resp'. split; [|exact Hn].
    destruct tr; [discriminate|exact Hl].
  - injection Hrun as <- <-.
    exists [(Scan (name h) kw, Ok resp)].
    split; [reflexivity|]. split.
    { unfold pages, page_items. simpl. by rewrite app_nil_r. }
    split; [reflexivity|]. split; [done|].
    by exists (Scan (name h) kw), resp.
Qed.

Lemma scan_loop_protocol (fuel : nat) :
  ∀ (acc : list item) (kwargs : gmap string item) (start : option item)
    (s s' : env W) (h : Table) (forums : list item)
    (tr : list (request * reply)),
    table s = Some h →
    (start = None → kwargs = ∅) →
    kwargs = ∅ ∨ (∃ k0, kwargs = {[ "ExclusiveStartKey" := k0 ]}) →
    start ≠ Some ∅ →
    scan_loop serve fuel acc kwargs start s = (Returns forums, s') →
    wire s' = wire s ++ tr →
    tokens_nonempty tr →
    follows_tokens (name h) start tr.
Proof.
  induction fuel as [|fuel IH];
    intros acc kwargs start s s' h forums tr Ht Hnone Hkw Hne Hrun Hwire Htok;
    [discriminate|].
  pose proof (kwargs_of_token kwargs start Hnone Hkw Hne) as Hkwargs.
  destruct (serve (Scan (name h) (start_kwargs start)) (remote s))
    as [[resp|c m] w'] eqn:Hs.
  2:{ simpl in Hrun. unfold mbind, M_bind, bind, self_table, call in Hrun.
      rewrite Ht in Hrun. simpl in Hrun. rewrite Hkwargs, Hs in Hrun.
      discriminate. }
  rewrite (scan_loop_step serve fuel acc kwargs start s h resp w' Ht) in Hrun
    by (by rewrite Hkwargs).
  rewrite Hkwargs in Hrun.
  destruct (LastEvaluatedKey resp) as [k|] eqn:Hk.
  - pose proof Hrun as Hret.
    apply scan_loop_returns in Hret as (tr' & Hw' & _).
    simpl in Hw'. rewrite <- app_assoc in Hw'. rewrite Hw' in Hwire.
    apply app_inv_head in Hwire. subst tr. simpl.
    split; [reflexivity|]. exists resp. split; [reflexivity|]. rewrite Hk.
    assert (Hk0 : k ≠ ∅).
    { intros ->. eapply Htok; [|exact Hk]. apply elem_of_cons. by left. }
    assert (Hkw' : start_kwargs start = ∅
                   ∨ ∃ k0, start_kwargs start = {[ "ExclusiveStartKey" := k0 ]})
      by (destruct start; simpl; eauto).
    assert (Hne' : Some k ≠ Some ∅) by (by intros [= ->]).
    assert (Hnone' : Some k = None → start_kwargs start = ∅)
      by discriminate.
    apply (IH _ _ _
             (exchange s (Scan (name h) (start_kwargs start)) (Ok resp) w')
             _ h _ tr' Ht Hnone' Hkw' Hne' Hrun).
    + simpl. by rewrite <- app_assoc.
    + intros req resp' Hin. apply (Htok req). apply elem_of_cons. by right.
  - injection Hrun as <- <-. simpl in Hwire.
    apply app_inv_head in Hwire. subst tr. simpl.
    split; [reflexivity|]. exists resp. split; [reflexivity|]. by rewrite Hk.
Qed.

(** Whatever the service, a [scan_forums] that returns has sent scans of
    the table of the handle and nothing else, has logged nothing, and
    returns the items of the pages it received, in the order received.
    The last reply carries no [LastEvaluatedKey]; and when no reply
    carries an empty key, the first request carries no
    [ExclusiveStartKey], each later one carries the [LastEvaluatedKey] of
    the reply before it, and only the last reply is without one. *)
Theorem scan_forums_protocol (fuel : nat) (s s' : env W)
    (forums : list item) :
  scan_forums serve fuel s = (Returns forums, s') →
  ∃ h tr,
    table s = Some h
    ∧ wire s' = wire s ++ tr
    ∧ forums = pages tr
    ∧ records s' = records s
    ∧ table s' = table s
    ∧ (∃ req resp, last tr = Some (req, Ok resp)
                   ∧ LastEvaluatedKey resp = None)
    ∧ (tokens_nonempty tr → follows_tokens (name h) None tr).
Proof.
  intros Hrun. unfold scan_forums, try_except_else in Hrun.
  destruct (scan_loop serve fuel [] ∅ None s) as [[fs|e|] s1] eqn:Hloop;
    [|destruct e; discriminate|discriminate].
  injection Hrun as <- <-.
  destruct (table s) as [h|] eqn:Ht.
  2:{ destruct fuel; [discriminate|]. simpl in Hloop.
      unfold mbind, M_bind, bind, self_table in Hloop.
      rewrite Ht in Hloop. discriminate. }
  pose proof (scan_loop_returns _ _ _ _ _ _ _ Hloop)
    as (tr & Hw & Hf & Hr & Htb & Hlast).
  exists h, tr. split; [reflexivity|]. split; [exact Hw|].
  split; [exact Hf|]. split; [exact Hr|]. split; [by rewrite Htb|].
  split; [exact Hlast|].
  intros Htok.
  apply (scan_loop_protocol fuel [] ∅ None s s1 h fs tr Ht); try done.
  by left.
Qed.

(** Against a service that answers every scan with an empty dict for
    [LastEvaluatedKey], [scan_forums] never returns: [if start_key:]
    takes the empty dict for no key, [start_key is None] does not, so the
    loop goes on and sends the same request without a key again.
    Whatever the bound on the turns, the loop is still running when it
    is reached, and every request sent is that first request. *)
Theorem scan_forums_empty_key_never_returns (fuel : nat) (s : env W)
    (h : Table) :
  table s = Some h →
  (∀ w, ∃ resp w',
     serve (Scan (name h) ∅) w = (Ok resp, w')
     ∧ LastEvaluatedKey resp = Some ∅) →
  ∃ s',
    scan_forums serve fuel s = (Unfinished, s')
    ∧ ∃ tr, wire s' = wire s ++ tr
            ∧ length tr = fuel
            ∧ Forall (λ x, x.1 = Scan (name h) ∅) tr.
Proof.
  intros Ht Hserve.
  assert (Hloop : ∀ fuel acc start s,
            table s = Some h →
            start = None ∨ start = Some ∅ →
            ∃ s', scan_loop serve fuel acc ∅ start s = (Unfinished, s')
                  ∧ ∃ tr, wire s' = wire s ++ tr
                          ∧ length tr = fuel
                          ∧ Forall (λ x, x.1 = Scan (name h) ∅) tr).
  { clear s Ht fuel. induction fuel as [|fuel IH]; intros acc start s Ht Hst.
    - exists s. split; [reflexivity|]. exists []. by rewrite app_nil_r.
    - destruct (Hserve (remote s)) as (resp & w' & Hs & Hk).
      assert (Hkw : match start with
                    | Some k =>
                        if truthy start
                        then <["ExclusiveStartKey" := k]> (∅ : gmap string item)
                        else ∅
                    | None => ∅
                    end = ∅).
      { destruct Hst as [->| ->]; [reflexivity|]. simpl.
        by rewrite bool_decide_eq_false_2 by (intros Hne; by apply Hne). }
      rewrite (scan_loop_step serve fuel acc ∅ start s h resp w' Ht)
        by (by rewrite Hkw).
      rewrite Hk, Hkw.
      destruct (IH (acc ++ default [] (Items resp)) (Some ∅)
                  (exchange s (Scan (name h) ∅) (Ok resp) w') Ht)
        as (s' & Hrun & tr & Hw & Hlen & Hall); [by right|].
      exists s'. split; [exact Hrun|].
      exists ((Scan (name h) ∅, Ok resp) :: tr).
      split; [rewrite Hw; simpl; by rewrite <- app_assoc|].
      split; [simpl; by rewrite Hlen|].
      by apply Forall_cons. }
  destruct (Hloop fuel [] None s Ht) as (s' & Hrun & Htr); [by left|].
  exists s'. split; [|exact Htr].
  unfold scan_forums, try_except_else. by rewrite Hrun.
Qed.

End Protocol.

(** ** How the methods compose on the store *)

Section Composition.

Import DynamoDB.

(** *** One method on a table the facade holds *)

Lemma get_forum_bound (s : env world) (t : string) (rs : gmap string item)
    (n : string) :
  bound_to s t rs →
  n ≠ "" →
  (get_forum serve n s).1
  = match rs !! n with
    | Some it => Returns it
    | None => Raises (KeyError "Item")
    end.
Proof.
  intros [Ht Hw] Hn.
  rewrite (get_forum_run serve n s _ Ht). simpl name.
  rewrite (serve_get _ _ _ n Hw eq_refl Hn). cbv zeta. cbv iota beta.
  simpl rows. by destruct (rs !! n).
Qed.

Lemma add_forum_bound (s : env world) (t : string) (rs : gmap string item)
    (n : string) (c m th v : value) :
  bound_to s t rs →
  n ≠ "" →
  ∃ s1,
    add_forum serve n c m th v s = (Returns tt, s1)
    ∧ bound_to s1 t (<[n := forum_item n c m th v]> rs)
    ∧ records s1 = records s
    ∧ page_sizes (remote s1) = page_sizes (remote s).
Proof.
  intros Hb Hn. pose proof Hb as [Ht Hw].
  rewrite (add_forum_run serve n c m th v s _ Ht). simpl name.
  rewrite (serve_put _ _ _ _ n Hw) by (apply key_value_record, Hn).
  cbv zeta. cbv iota beta. eexists. split; [reflexivity|].
  split; [exact (bound_to_exchange s t rs _ _ _ Hb)|]. done.
Qed.

Lemma delete_forum_bound (s : env world) (t : string) (rs : gmap string item)
    (n : string) :
  bound_to s t rs →
  n ≠ "" →
  ∃ s1,
    delete_forum serve n s = (Returns tt, s1)
    ∧ bound_to s1 t (delete n rs)
    ∧ records s1 = records s
    ∧ page_sizes (remote s1) = page_sizes (remote s).
Proof.
  intros Hb Hn. pose proof Hb as [Ht Hw].
  rewrite (delete_forum_run serve n s _ Ht). simpl name.
  rewrite (serve_delete _ _ _ n Hw eq_refl Hn).
  cbv zeta. cbv iota beta. eexists. split; [reflexivity|].
  split; [exact (bound_to_exchange s t rs _ _ _ Hb)|]. done.
Qed.

Lemma update_forum_bound (s : env world) (t : string) (rs : gmap string item)
    (n : string) (c m th v : value) :
  bound_to s t rs →
  n ≠ "" →
  ∃ s1,
    update_forum serve n c m th v s
    = (Returns (forum_attributes c m th v), s1)
    ∧ bound_to s1 t
        (<[n := rewritten c m th v (default {[ "Name" := VStr n ]} (rs !! n))]>
           rs)
    ∧ records s1 = records s
    ∧ page_sizes (remote s1) = page_sizes (remote s).
Proof.
  intros Hb Hn. pose proof Hb as [Ht Hw].
  rewrite (update_forum_run serve n c m th v s _ Ht). simpl name.
  rewrite (serve_update _ _ _ n c m th v Hw eq_refl Hn).
  cbv zeta. cbv iota beta. simpl rows. eexists. split; [reflexivity|].
  split; [exact (bound_to_exchange s t rs _ _ _ Hb)|]. done.
Qed.

Lemma rewritten_key (n : string) (c m th v : value) :
  rewritten c m th v {[ "Name" := VStr n ]} = forum_item n c m th v.
Proof.
  unfold rewritten, forum_item. apply map_eq. intros i.
  destruct (decide (i = "Views")) as [->|?]; [reflexivity|].
  destruct (decide (i = "Threads")) as [->|?]; [reflexivity|].
  destruct (decide (i = "Messages")) as [->|?]; [reflexivity|].
  destruct (decide (i = "Category")) as [->|?]; [reflexivity|].
  destruct (decide (i = "Name")) as [->|?]; [reflexivity|].
  rewrite !lookup_insert_ne by done.
  by rewrite !lookup_singleton_ne.
Qed.

Lemma rewritten_lookup_other (c m th v : value) (old : item) (a : string) :
  a ∉ ["Category"; "Messages"; "Threads"; "Views"] →
  rewritten c m th v old !! a = old !! a.
Proof.
  intros Ha. unfold rewritten.
  rewrite !lookup_insert_ne; [done|..];
    intros <-; apply Ha; repeat constructor.
Qed.

Lemma rewritten_attributes (c m th v : value) (old : item) :
  forum_attributes c m th v ⊆ rewritten c m th v old.
Proof.
  apply map_subseteq_spec. intros i x Hi. unfold forum_attributes in Hi.
  unfold rewritten.
  destruct (decide (i = "Views")) as [->|?].
  { rewrite lookup_insert_eq. rewrite <- Hi. reflexivity. }
  destruct (decide (i = "Threads")) as [->|?].
  { rewrite lookup_insert_ne, lookup_insert_eq by done. rewrite <- Hi.
    reflexivity. }
  destruct (decide (i = "Messages")) as [->|?].
  { rewrite !lookup_insert_ne, lookup_insert_eq by done. rewrite <- Hi.
    reflexivity. }
  destruct (decide (i = "Category")) as [->|?].
  { rewrite !lookup_insert_ne, lookup_insert_eq by done. rewrite <- Hi.
    reflexivity. }
  rewrite !lookup_insert_ne, lookup_singleton_ne in Hi by done. done.
Qed.

(** *** [update_forum] *)



(** *** What a write leaves alone *)

(** [add_forum], [update_forum] and [delete_forum] of one forum change
    nothing for the others: [get_forum] of any other name gives what it
    gave before. *)
Theorem writes_leave_other_forums (s : env world) (t : string)
    (rs : gmap string item) (n n' : string) (c m th v : value) :
  bound_to s t rs →
  n ≠ "" →
  n' ≠ "" →
  n' ≠ n →
  (get_forum serve n' (add_forum serve n c m th v s).2).1
  = (get_forum serve n' s).1
  ∧ (get_forum serve n' (update_forum serve n c m th v s).2).1
    = (get_forum serve n' s).1
  ∧ (get_forum serve n' (delete_forum serve n s).2).1
    = (get_forum serve n' s).1.
Proof.
  intros Hb Hn Hn' Hne.
  rewrite (get_forum_bound s t rs n' Hb Hn').
  destruct (add_forum_bound s t rs n c m th v Hb Hn) as (s1 & -> & Hb1 & _).
  destruct (update_forum_bound s t rs n c m th v Hb Hn) as (s2 & -> & Hb2 & _).
  destruct (delete_forum_bound s t rs n Hb Hn) as (s3 & -> & Hb3 & _).
  simpl.
  rewrite (get_forum_bound s1 t _ n' Hb1 Hn'),
    (get_forum_bound s2 t _ n' Hb2 Hn'),
    (get_forum_bound s3 t _ n' Hb3 Hn').
  rewrite !lookup_insert_ne, lookup_delete_ne by done. done.
Qed.

(** *** [write_batch] *)

Lemma put_all_insert (hk : string) (its : list item) :
  ∀ (ks : list string) (rows0 : gmap string item),
    mapM (key_value hk) its = Some ks →
    put_all hk its rows0
    = Some (foldl (λ acc kv, <[kv.1 := kv.2]> acc) rows0 (zip ks its)).
Proof.
  unfold put_all.
  induction its as [|it its IH]; intros ks rows0 Hks.
  - by injection Hks as <-.
  - apply mapM_Some in Hks. inversion Hks as [|? k ? ks' Hk Hrest]; subst.
    apply mapM_Some in Hrest. simpl. rewrite Hk. simpl.
    by rewrite (IH ks' (<[k := it]> rows0) Hrest).
Qed.

Lemma foldl_insert_other (l : list (string * item)) :
  ∀ (m : gmap string item) (k : string),
    k ∉ l.*1 →
    foldl (λ acc kv, <[kv.1 := kv.2]> acc) m l !! k = m !! k.
Proof.
  induction l as [|[k' it] l IH]; intros m k Hk; [reflexivity|].
  simpl in *. apply not_elem_of_cons in Hk as [Hne Hk].
  rewrite (IH _ _ Hk). by apply lookup_insert_ne.
Qed.

Lemma foldl_insert_written (l : list (string * item)) :
  ∀ (m : gmap string item) (k : string) (it : item),
    NoDup l.*1 →
    (k, it) ∈ l →
    foldl (λ acc kv, <[kv.1 := kv.2]> acc) m l !! k = Some it.
Proof.
  induction l as [|[k' it'] l IH]; intros m k it Hnd Hin.
  - by apply elem_of_nil in Hin.
  - simpl in *. apply NoDup_cons in Hnd as [Hk' Hnd].
    apply elem_of_cons in Hin as [[= -> ->]|Hin].
    + rewrite (foldl_insert_other l _ _ Hk'). apply lookup_insert_eq.
    + by apply IH.
Qed.


(** *** The table *)

Lemma exists_present (s : env world) (table_name : string)
    (tbl : table_state) :
  tables (remote s) !! table_name = Some tbl →
  (exists_ serve table_name s).1 = Returns true.
Proof. intros Hw. rewrite exists_run. simpl. by rewrite Hw. Qed.

Lemma create_table_absent (s : env world) (table_name : string) :
  tables (remote s) !! table_name = None →
  ∃ s1,
    create_table serve table_name s = (Returns {| name := table_name |}, s1)
    ∧ bound_to s1 table_name ∅
    ∧ records s1 = records s.
Proof.
  intros Hnone.
  pose proof (create_table_run serve table_name s) as Hrun.
  cbv zeta in Hrun. rewrite Hrun. clear Hrun.
  simpl. rewrite Hnone. simpl. rewrite lookup_insert_eq. simpl.
  eexists. split; [reflexivity|]. split; [|reflexivity].
  split; [reflexivity|]. simpl. apply lookup_insert_eq.
Qed.

Lemma create_table_present (s : env world) (table_name : string)
    (tbl : table_state) :
  tables (remote s) !! table_name = Some tbl →
  ∃ Message,
    (create_table serve table_name s).1
    = Raises (ClientError "ResourceInUseException" Message).
Proof.
  intros Hw.
  pose proof (create_table_run serve table_name s) as Hrun.
  cbv zeta in Hrun. rewrite Hrun. clear Hrun.
  simpl. rewrite Hw. simpl. by eexists.
Qed.

Lemma scan_forums_empty_table (s : env world) (t : string) (fuel : nat) :
  bound_to s t ∅ →
  (scan_forums serve (S fuel) s).1 = Returns [].
Proof.
  intros [Ht Hw]. unfold scan_forums, try_except_else.
  assert (Hs : serve (Scan t ∅) (remote s)
            = (Ok (scan_page {| hash_key := "Name"; rows := ∅ |} None
                     (head (page_sizes (remote s)))),
               {| tables := tables (remote s);
                  page_sizes := tail (page_sizes (remote s)) |})).
  { simpl. by rewrite Hw. }
  rewrite (scan_loop_step serve fuel [] ∅ None s _ _ _ Ht Hs).
  unfold scan_page. simpl rows. rewrite map_to_list_empty.
  destruct (head (page_sizes (remote s))) as [p|]; [|reflexivity].
  simpl. rewrite bool_decide_eq_false_2 by lia. reflexivity.
Qed.

(** [create_table] of a name the store has no table of returns the
    handle and logs nothing; the table is there, [exists] finds it, and it
    is empty: a scan returns no forum.  A second [create_table] of the
    name is rejected with [ResourceInUseException], and the rejection is
    raised. *)
Theorem create_table_fresh (s : env world) (table_name : string) :
  tables (remote s) !! table_name = None →
  let '(o, s1) := create_table serve table_name s in
  o = Returns {| name := table_name |}
  ∧ bound_to s1 table_name ∅
  ∧ records s1 = records s
  ∧ (exists_ serve table_name s1).1 = Returns true
  ∧ (∀ fuel, (scan_forums serve (S fuel) s1).1 = Returns [])
  ∧ ∃ Message,
      (create_table serve table_name s1).1
      = Raises (ClientError "ResourceInUseException" Message).
Proof.
  intros Hnone.
  destruct (create_table_absent s table_name Hnone) as (s1 & -> & Hb & Hr).
  pose proof Hb as [Ht Hw].
  split; [reflexivity|]. split; [exact Hb|]. split; [exact Hr|].
  split; [exact (exists_present s1 _ _ Hw)|].
  split; [intros fuel; exact (scan_forums_empty_table s1 _ fuel Hb)|].
  exact (create_table_present s1 _ _ Hw).
Qed.

(** *** Scans after writes *)

Lemma scan_forums_lists_rows (s : env world) (t : string)
    (rs : gmap string item) (fuel : nat) :
  bound_to s t rs →
  filed_by_name rs →
  length (page_sizes (remote s)) < fuel →
  ∃ forums,
    (scan_forums serve fuel s).1 = Returns forums
    ∧ (∀ it, it ∈ forums ↔ ∃ k, rs !! k = Some it)
    ∧ length forums = size rs.
Proof.
  intros [Ht Hw] Hwk Hfuel.
  set (tbl := {| hash_key := "Name"; rows := rs |}) in *.
  assert (Hkv : ∀ kv, kv ∈ map_to_list (rows tbl) →
                      key_value (hash_key tbl) kv.2 = Some kv.1).
  { intros [k it] Hin. apply elem_of_map_to_list in Hin. by apply Hwk. }
  destruct (scan_loop_pages t tbl (page_sizes (remote s)) fuel s [] ∅ []
              (map_to_list (rows tbl)))
    as (tr & s' & Hrun & _); try done.
  { intros kv Hin. eapply key_value_nonempty. by apply Hkv. }
  { by left. }
  simpl in Hrun.
  exists (map_to_list rs).*2.
  split; [unfold scan_forums, try_except_else; by rewrite Hrun|].
  split; [|by rewrite length_fmap, length_map_to_list].
  intros it. rewrite list_elem_of_fmap. split.
  - intros ([k it'] & -> & Hin). exists k. by apply elem_of_map_to_list.
  - intros (k & Hk). exists (k, it). split; [reflexivity|].
    by apply elem_of_map_to_list.
Qed.


(** After [delete_forum], a scan returns no forum of that name, and
    returns the forums of the other names: one forum less than before
    when the table held the name. *)
Theorem scan_forums_after_delete_forum (s : env world) (t : string)
    (rs : gmap string item) (n : string) (fuel : nat) :
  bound_to s t rs →
  filed_by_name rs →
  n ≠ "" →
  length (page_sizes (remote s)) < fuel →
  ∃ forums,
    (scan_forums serve fuel (delete_forum serve n s).2).1 = Returns forums
    ∧ (∀ it, it ∈ forums → key_value "Name" it ≠ Some n)
    ∧ (∀ k it, k ≠ n → rs !! k = Some it → it ∈ forums)
    ∧ length forums = match rs !! n with
                      | Some _ => pred (size rs)
                      | None => size rs
                      end.
Proof.
  intros Hb Hwk Hn Hfuel.
  destruct (delete_forum_bound s t rs n Hb Hn) as (s1 & Hrun & Hb1 & _ & Hps).
  rewrite Hrun. simpl.
  destruct (scan_forums_lists_rows s1 t _ fuel Hb1) as (forums & Hf & Hin & Hlen).
  { intros k it Hk. apply lookup_delete_Some in Hk as [_ Hk]. by apply Hwk. }
  { by rewrite Hps. }
  exists forums. split; [exact Hf|]. split; [|split].
  - intros it Hit. apply Hin in Hit as (k & Hk).
    apply lookup_delete_Some in Hk as [Hne Hk].
    rewrite (Hwk k it Hk). by intros [= ->].
  - intros k it Hne Hk. apply Hin. exists k. by rewrite lookup_delete_ne.
  - rewrite Hlen. destruct (rs !! n) as [old|] eqn:Hold.
    + apply map_size_delete_Some. by exists old.
    + by rewrite delete_id.
Qed.

End Composition.

(** ** What the methods leave alone, against any service *)

Section Frames.

Context {W : Type}.
Variable serve : request → W → reply * W.

(** The loop of a scan logs nothing, and a [ClientError] it raises is
    the fault of its last exchange. *)
Lemma scan_loop_raises (fuel : nat) :
  ∀ (acc : list item) (kwargs : gmap string item) (start : option item)
    (s : env W),
    let r := scan_loop serve fuel acc kwargs start s in
    ∃ tr,
      wire r.2 = wire s ++ tr
      ∧ records r.2 = records s
      ∧ table r.2 = table s
      ∧ stdout r.2 = stdout s
      ∧ files r.2 = files s
      ∧ ∀ e, r.1 = Raises e →
          (∃ attr, e = AttributeError attr)
          ∨ ∃ req Code Message,
              e = ClientError Code Message
              ∧ last tr = Some (req, Fault Code Message).
Proof.
  induction fuel as [|fuel IH]; intros acc kwargs start s; simpl.
  { exists []. rewrite app_nil_r. repeat split; done. }
  unfold mbind, M_bind, bind, self_table.
  destruct (table s) as [h|] eqn:Ht; simpl.
  2:{ exists []. rewrite app_nil_r. repeat split; try done.
      intros e [= <-]. left. by eexists. }
  unfold call.
  match goal with
  | |- context [serve ?r (remote s)] =>
      set (req0 := r); destruct (serve req0 (remote s)) as [[resp|c m] w']
  end; simpl.
  - destruct (LastEvaluatedKey resp) as [k|].
    + match goal with
      | |- context [scan_loop serve fuel ?f ?kw ?st ?e] =>
          destruct (IH f kw st e) as (tr & Hw & Hr & Htb & Hso & Hfi & Hf)
      end.
      exists ((req0, Ok resp) :: tr).
      split; [rewrite Hw; simpl; by rewrite <- app_assoc|].
      split; [exact Hr|]. split; [by rewrite Htb|].
      split; [exact Hso|]. split; [exact Hfi|].
      intros e He. destruct (Hf e He) as [Ha|(req & c & m & -> & Hl)];
        [by left|right].
      exists req, c, m. split; [reflexivity|].
      destruct tr; [discriminate|exact Hl].
    + exists [(req0, Ok resp)]. simpl. repeat split; try done.
  - exists [(req0, Fault c m)]. simpl. repeat split; try done.
    intros e [= <-]. right. by exists req0, c, m.
Qed.

Ltac unfold_methods :=
  unfold perform, void, exists_, create_table, write_batch, get_forum,
    add_forum, update_forum, delete_forum, delete_table, try_except_else,
    subscript, mbind, mret, M_bind, M_ret, bind, ret, raise, self_table,
    set_table, logger_error, call.

Ltac no_record := left; split; [reflexivity|]; intros ? ? [=].

Ltac one_record :=
  right; do 4 eexists;
  split; [reflexivity|]; split; [apply last_snoc|];
  split; reflexivity.

(** The logger hears of faults and of nothing else.  Whatever the service
    and the operation: either nothing is logged and no [ClientError] is
    raised, or the last exchange of the operation is a fault, one ERROR
    record is logged for it, and the [ClientError] of that fault is
    raised.  An [AttributeError] or a [KeyError] leaves no record. *)
Theorem error_records_come_from_faults (op : operation) (s : env W) :
  let '(o, s') := perform serve op s in
  (records s' = records s
   ∧ ∀ Code Message, o ≠ Raises (ClientError Code Message))
  ∨ ∃ req Code Message rec,
      o = Raises (ClientError Code Message)
      ∧ last (wire s') = Some (req, Fault Code Message)
      ∧ records s' = records s ++ [rec]
      ∧ levelname rec = "ERROR".
Proof.
  destruct op as [tn|tn|forums|n|fuel|n c m th v|n c m th v|n|].
  - (* exists *)
    unfold_methods. simpl.
    destruct (serve (DescribeTable tn) (remote s)) as [[r|c m] w']; simpl;
      [no_record|].
    destruct (String.eqb c "ResourceNotFoundException"); simpl;
      [no_record|one_record].
  - (* create_table *)
    unfold_methods. simpl.
    destruct (serve (CreateTable _ _ _ _ _) (remote s)) as [[r|c m] w']; simpl;
      [|one_record].
    destruct (serve (WaitUntilExists tn) w') as [[r2|c m] w2]; simpl;
      [no_record|one_record].
  - (* write_batch *)
    unfold_methods. destruct (table s) as [h|] eqn:Ht; simpl; [|no_record].
    destruct (serve (BatchWriteItem _ _) (remote s)) as [[r|c m] w']; simpl;
      [no_record|]. rewrite Ht. simpl. one_record.
  - (* get_forum *)
    unfold_methods. destruct (table s) as [h|] eqn:Ht; simpl; [|no_record].
    destruct (serve (GetItem _ _) (remote s)) as [[r|c m] w']; simpl.
    + destruct (Item r); simpl; no_record.
    + rewrite Ht. simpl. one_record.
  - (* scan_forums *)
    unfold perform, void, scan_forums, try_except_else, mbind, M_bind, bind.
    destruct (scan_loop_raises fuel [] ∅ None s)
      as (tr & Hw & Hr & _ & _ & _ & Hf).
    destruct (scan_loop serve fuel [] ∅ None s) as [[fs|e|] s1]; simpl in *.
    + left. split; [exact Hr|]. intros ? ? [=].
    + destruct (Hf e eq_refl) as [[attr ->]|(req & c & m & -> & Hl)].
      * left. split; [exact Hr|]. intros ? ? [=].
      * unfold logger_error, raise. simpl. right. do 4 eexists.
        split; [reflexivity|]. split; [|split; [by rewrite Hr|reflexivity]].
        simpl. rewrite Hw. destruct tr; [discriminate|].
        by rewrite last_app, Hl.
    + left. split; [exact Hr|]. intros ? ? [=].
  - (* add_forum *)
    unfold_methods. destruct (table s) as [h|] eqn:Ht; simpl; [|no_record].
    destruct (serve (PutItem _ _) (remote s)) as [[r|c' m'] w']; simpl;
      [no_record|]. rewrite Ht. simpl. one_record.
  - (* update_forum *)
    unfold_methods. destruct (table s) as [h|] eqn:Ht; simpl; [|no_record].
    destruct (serve (UpdateItem _ _ _ _ _ _) (remote s)) as [[r|c' m'] w'];
      simpl.
    + destruct (Attributes r); simpl; no_record.
    + rewrite Ht. simpl. one_record.
  - (* delete_forum *)
    unfold_methods. destruct (table s) as [h|] eqn:Ht; simpl; [|no_record].
    destruct (serve (DeleteItem _ _) (remote s)) as [[r|c m] w']; simpl;
      [no_record|one_record].
  - (* delete_table *)
    unfold_methods. destruct (table s) as [h|] eqn:Ht; simpl; [|no_record].
    destruct (serve (DeleteTable _) (remote s)) as [[r|c m] w']; simpl;
      [no_record|one_record].
Qed.

(** The methods that read and write forums keep the handle: whatever the
    service answers, [self.table] is after the call what it was before.
    They print nothing and touch no file either. *)
Theorem data_methods_keep_the_handle (s : env W) :
  (∀ forums, let s' := (write_batch serve forums s).2 in
             table s' = table s ∧ stdout s' = stdout s ∧ files s' = files s)
  ∧ (∀ n, let s' := (get_forum serve n s).2 in
          table s' = table s ∧ stdout s' = stdout s ∧ files s' = files s)
  ∧ (∀ fuel, let s' := (scan_forums serve fuel s).2 in
             table s' = table s ∧ stdout s' = stdout s ∧ files s' = files s)
  ∧ (∀ n c m th v, let s' := (add_forum serve n c m th v s).2 in
                   table s' = table s ∧ stdout s' = stdout s
                   ∧ files s' = files s)
  ∧ (∀ n c m th v, let s' := (update_forum serve n c m th v s).2 in
                   table s' = table s ∧ stdout s' = stdout s
                   ∧ files s' = files s)
  ∧ (∀ n, let s' := (delete_forum serve n s).2 in
          table s' = table s ∧ stdout s' = stdout s ∧ files s' = files s).
Proof.
  split; [|split; [|split; [|split; [|split]]]].
  - intros forums. unfold_methods.
    destruct (table s) as [h|] eqn:Ht; simpl; [|done].
    destruct (serve (BatchWriteItem _ _) (remote s)) as [[r|c m] w']; simpl;
      [done|]. rewrite Ht. simpl. done.
  - intros n. unfold_methods.
    destruct (table s) as [h|] eqn:Ht; simpl; [|done].
    destruct (serve (GetItem _ _) (remote s)) as [[r|c m] w']; simpl.
    + destruct (Item r); simpl; done.
    + rewrite Ht. simpl. done.
  - intros fuel. unfold scan_forums, try_except_else.
    destruct (scan_loop_raises fuel [] ∅ None s)
      as (tr & _ & _ & Htb & Hso & Hfi & _).
    destruct (scan_loop serve fuel [] ∅ None s) as [[fs|e|] s1]; simpl in *;
      try done.
    destruct e; done.
  - intros n c m th v. unfold_methods.
    destruct (table s) as [h|] eqn:Ht; simpl; [|done].
    destruct (serve (PutItem _ _) (remote s)) as [[r|c' m'] w']; simpl;
      [done|]. rewrite Ht. simpl. done.
  - intros n c m th v. unfold_methods.
    destruct (table s) as [h|] eqn:Ht; simpl; [|done].
    destruct (serve (UpdateItem _ _ _ _ _ _) (remote s)) as [[r|c' m'] w'];
      simpl.
    + destruct (Attributes r); simpl; done.
    + rewrite Ht. simpl. done.
  - intros n. unfold_methods.
    destruct (table s) as [h|] eqn:Ht; simpl; [|done].
    destruct (serve (DeleteItem _ _) (remote s)) as [[r|c m] w']; simpl; done.
Qed.

End Frames.

(** ** The further properties in the demo *)

Section DemoFurther.

Import DynamoDB.

Lemma demo_rows_filed : filed_by_name demo_rows.
Proof.
  change (map_Forall (λ k it, key_value "Name" it = Some k) demo_rows).
  compute_done.
Qed.

(** A fresh [Forum]: no method on the table works yet. *)
Lemma methods_need_a_handle_fresh :
  (∀ forums, write_batch serve forums (Forum_init empty_world ∅)
             = (Raises (AttributeError "batch_writer"),
                Forum_init empty_world ∅))
  ∧ (∀ n, get_forum serve n (Forum_init empty_world ∅)
          = (Raises (AttributeError "get_item"), Forum_init empty_world ∅))
  ∧ (∀ fuel, scan_forums serve (S fuel) (Forum_init empty_world ∅)
             = (Raises (AttributeError "scan"), Forum_init empty_world ∅))
  ∧ (∀ n c m th v, add_forum serve n c m th v (Forum_init empty_world ∅)
                   = (Raises (AttributeError "put_item"),
                      Forum_init empty_world ∅))
  ∧ (∀ n c m th v, update_forum serve n c m th v (Forum_init empty_world ∅)
                   = (Raises (AttributeError "update_item"),
                      Forum_init empty_world ∅))
  ∧ (∀ n, delete_forum serve n (Forum_init empty_world ∅)
          = (Raises (AttributeError "delete_item"), Forum_init empty_world ∅))
  ∧ delete_table serve (Forum_init empty_world ∅)
    = (Raises (AttributeError "delete"), Forum_init empty_world ∅).
Proof.
  apply (methods_need_a_handle serve (Forum_init empty_world ∅)).
  reflexivity.
Defined.

(** The demo's [delete_table], and a second one. *)
Lemma delete_table_once_demo :
  let s := demo_env [] in
  let s' := (delete_table serve s).2 in
  (∃ h resp,
     table s = Some h
     ∧ wire s' = wire s ++ [(DeleteTable (name h), Ok resp)])
  ∧ table s' = None
  ∧ records s' = records s
  ∧ delete_table serve s' = (Raises (AttributeError "delete"), s')
  ∧ ∀ n, get_forum serve n s' = (Raises (AttributeError "get_item"), s').
Proof.
  intros s s'. apply (delete_table_once serve s s').
  vm_compute. reflexivity.
Defined.

(** The scan of the demo, one forum a page, read off the wire. *)
Lemma scan_forums_protocol_demo :
  let s := demo_env [1%positive] in
  let s' := (scan_forums serve 5 s).2 in
  ∃ h tr,
    table s = Some h
    ∧ wire s' = wire s ++ tr
    ∧ [sql_server 1000; sample_forum] = pages tr
    ∧ records s' = records s
    ∧ table s' = table s
    ∧ (∃ req resp, last tr = Some (req, Ok resp)
                   ∧ LastEvaluatedKey resp = None)
    ∧ (tokens_nonempty tr → follows_tokens (name h) None tr).
Proof.
  intros s s'.
  apply (scan_forums_protocol serve 5 s s' [sql_server 1000; sample_forum]).
  vm_compute. reflexivity.
Defined.

(** Three turns of the loop against the service of empty keys. *)
Lemma scan_forums_empty_key_stutters :
  ∃ s',
    scan_forums stuttering 3 throttled_env = (Unfinished, s')
    ∧ ∃ tr, wire s' = wire throttled_env ++ tr
            ∧ length tr = 3
            ∧ Forall (λ x, x.1 = Scan "Forum" ∅) tr.
Proof.
  apply (scan_forums_empty_key_never_returns stuttering 3 throttled_env
           {| name := "Forum" |}).
  - reflexivity.
  - intros w. eexists _, _. split; reflexivity.
Defined.



(** The writes of the demo on ["SQL server"] leave ["Amazon DynamoDB"]. *)
Lemma writes_leave_other_forums_demo :
  (get_forum serve "Amazon DynamoDB"
     (add_forum serve "SQL server" (VStr "Amazon Web Services")
        (VInt 4) (VInt 2) (VInt 2000) (demo_env [])).2).1
  = (get_forum serve "Amazon DynamoDB" (demo_env [])).1
  ∧ (get_forum serve "Amazon DynamoDB"
       (update_forum serve "SQL server" (VStr "Amazon Web Services")
          (VInt 4) (VInt 2) (VInt 2000) (demo_env [])).2).1
    = (get_forum serve "Amazon DynamoDB" (demo_env [])).1
  ∧ (get_forum serve "Amazon DynamoDB"
       (delete_forum serve "SQL server" (demo_env [])).2).1
    = (get_forum serve "Amazon DynamoDB" (demo_env [])).1.
Proof.
  apply (writes_leave_other_forums (demo_env []) "Forum" demo_rows
           "SQL server" "Amazon DynamoDB").
  - apply demo_env_bound.
  - discriminate.
  - discriminate.
  - discriminate.
Defined.


(** The demo's [create_table], on a store without tables. *)
Lemma create_table_fresh_demo :
  let '(o, s1) := create_table serve "Forum" (Forum_init empty_world ∅) in
  o = Returns {| name := "Forum" |}
  ∧ bound_to s1 "Forum" ∅
  ∧ records s1 = records (Forum_init empty_world ∅)
  ∧ (exists_ serve "Forum" s1).1 = Returns true
  ∧ (∀ fuel, (scan_forums serve (S fuel) s1).1 = Returns [])
  ∧ ∃ Message,
      (create_table serve "Forum" s1).1
      = Raises (ClientError "ResourceInUseException" Message).
Proof.
  apply (create_table_fresh (Forum_init empty_world ∅) "Forum").
  reflexivity.
Defined.


(** The demo's [delete_forum], then its second scan. *)
Lemma scan_forums_after_delete_forum_demo :
  ∃ forums,
    (scan_forums serve 5
       (delete_forum serve "SQL server" (demo_env [1%positive])).2).1
    = Returns forums
    ∧ (∀ it, it ∈ forums → key_value "Name" it ≠ Some "SQL server")
    ∧ (∀ k it, k ≠ "SQL server" → demo_rows !! k = Some it → it ∈ forums)
    ∧ length forums = match demo_rows !! "SQL server" with
                      | Some _ => pred (size demo_rows)
                      | None => size demo_rows
                      end.
Proof.
  apply (scan_forums_after_delete_forum (demo_env [1%positive]) "Forum"
           demo_rows "SQL server").
  - apply demo_env_bound.
  - apply demo_rows_filed.
  - discriminate.
  - simpl. lia.
Defined.

End DemoFurther.
